(** * cli-chat-app: a shallow embedding of [main.go]

    The server keeps three registries ([users], [clients], [rooms]) whose
    values are pointers to shared [User] objects, pushes events to websocket
    connections and appends chat lines to one text file per room.  The
    embedding keeps that shape: a heap of [User] objects addressed by
    pointers, the three Go maps as finite maps, the file system as a map
    from paths to contents, and every [WriteJSON] call recorded in a trace.
    A nil-pointer dereference is a Go panic; handlers therefore live in a
    small state monad with a [Panic] outcome. *)

From stdpp Require Import gmap strings list fin_maps.
From Stdlib Require Import NArith.

(** ** Data model *)

(** [*websocket.Conn] handles and [*User] pointers are opaque addresses; a
    nilable pointer is an [option nat], with [None] for nil. *)
Abbreviation conn := nat (only parsing).
Abbreviation ptr := nat (only parsing).

(** [type User struct].  No statement of [main.go] assigns [Conn]; the field
    is kept nilable, as the Go type is. *)
Record User := mkUser {
  Username : string;
  Password : string;
  Conn : option conn;
  Room : string
}.

(** [type Message struct]; [MsgType] is the field [Type] and [MsgRoom] the
    field [Room] (renamed apart from the keyword and from [User.Room]). *)
Record Message := mkMessage {
  MsgType : string;
  Sender : string;
  Target : string;
  Content : string;
  MsgRoom : string
}.

#[global] Instance User_eq_dec : EqDecision User.
Proof. solve_decision. Defined.

#[global] Instance Message_eq_dec : EqDecision Message.
Proof. solve_decision. Defined.

(** One [WriteJSON] call on a non-nil connection: the handle, the value
    written, and whether the call returned without error. *)
Inductive io := Push (c : conn) (m : Message) (ok : bool).

#[global] Instance io_eq_dec : EqDecision io.
Proof. solve_decision. Defined.

(** The server state.  [heap] holds the [User] objects ([&User{...}]
    allocates at the end); [users], [clients], [rooms] are the three global
    maps; [files] is the working directory; [noaccess] are the paths whose
    open fails for a reason other than absence; [down] are the connections
    whose peer is gone; [closed] the connections on which [Close] was
    called; [ended] the connections whose reader goroutine has returned;
    [trace] the [WriteJSON] calls so far, oldest first. *)
Record State := mkState {
  heap : list User;
  users : gmap string ptr;
  clients : gmap conn ptr;
  rooms : gmap string (list ptr);
  files : gmap string string;
  noaccess : gset string;
  down : gset conn;
  closed : gset conn;
  ended : gset conn;
  trace : list io
}.

Definition set_heap (h : list User) (s : State) : State :=
  mkState h (users s) (clients s) (rooms s) (files s) (noaccess s)
          (down s) (closed s) (ended s) (trace s).
Definition set_users (u : gmap string ptr) (s : State) : State :=
  mkState (heap s) u (clients s) (rooms s) (files s) (noaccess s)
          (down s) (closed s) (ended s) (trace s).
Definition set_clients (c : gmap conn ptr) (s : State) : State :=
  mkState (heap s) (users s) c (rooms s) (files s) (noaccess s)
          (down s) (closed s) (ended s) (trace s).
Definition set_rooms (r : gmap string (list ptr)) (s : State) : State :=
  mkState (heap s) (users s) (clients s) r (files s) (noaccess s)
          (down s) (closed s) (ended s) (trace s).
Definition set_files (f : gmap string string) (s : State) : State :=
  mkState (heap s) (users s) (clients s) (rooms s) f (noaccess s)
          (down s) (closed s) (ended s) (trace s).
Definition set_down (d : gset conn) (s : State) : State :=
  mkState (heap s) (users s) (clients s) (rooms s) (files s) (noaccess s)
          d (closed s) (ended s) (trace s).
Definition set_closed (c : gset conn) (s : State) : State :=
  mkState (heap s) (users s) (clients s) (rooms s) (files s) (noaccess s)
          (down s) c (ended s) (trace s).
Definition set_ended (e : gset conn) (s : State) : State :=
  mkState (heap s) (users s) (clients s) (rooms s) (files s) (noaccess s)
          (down s) (closed s) e (trace s).
Definition set_trace (t : list io) (s : State) : State :=
  mkState (heap s) (users s) (clients s) (rooms s) (files s) (noaccess s)
          (down s) (closed s) (ended s) t.

(** The state at start-up: empty maps ([make(map...)]), no connection; the
    working directory may hold history files of an earlier run. *)
Definition boot (fs : gmap string string) (na : gset string) : State :=
  mkState [] ∅ ∅ ∅ fs na ∅ ∅ ∅ [].

Definition init : State := boot ∅ ∅.

(** ** The handler monad: state passing with panics *)

Inductive result (A : Type) :=
| Ret (a : A) (s : State)
| Panic (s : State).
Arguments Ret {A} a s.
Arguments Panic {A} s.

Definition M (A : Type) : Type := State → result A.

Definition ret {A} (a : A) : M A := fun s => Ret a s.
Definition bind {A B} (m : M A) (k : A → M B) : M B :=
  fun s => match m s with
           | Ret a s' => k a s'
           | Panic s' => Panic s'
           end.
Definition get : M State := fun s => Ret s s.
Definition modify (f : State → State) : M unit := fun s => Ret tt (f s).
Definition panic {A} : M A := fun s => Panic s.

Declare Scope go_scope.
Delimit Scope go_scope with go.
Notation "'let*' x ':=' m 'in' k" := (bind m (fun x => k))
  (at level 10, x name, m at level 100, k at level 200) : go_scope.
Local Open Scope go_scope.

(** The state a computation ends in, whether it returned or panicked. *)
Definition final {A} (r : result A) : State :=
  match r with Ret _ s => s | Panic s => s end.

Definition returned {A} (r : result A) : bool :=
  match r with Ret _ _ => true | Panic _ => false end.

(** ** Collaborators: the websocket connection and the heap *)

(** A write goes through when the peer is there and the handle is open. *)
Definition alive (s : State) (c : conn) : bool :=
  bool_decide (c ∉ down s) && bool_decide (c ∉ closed s).

(** [c.WriteJSON(m)] on a non-nil handle [c]; the result is [err == nil]. *)
Definition WriteJSON (c : conn) (m : Message) : M bool :=
  fun s => Ret (alive s c) (set_trace (trace s ++ [Push c m (alive s c)]) s).

(** [c.Close()] on a non-nil handle. *)
Definition Close (c : conn) : M unit :=
  modify (fun s => set_closed ({[c]} ∪ closed s) s).

(** Going through a nilable handle: a method of [*websocket.Conn] reads the
    fields of its receiver, so a nil receiver panics. *)
Definition nonnil {A} (o : option A) : M A :=
  match o with Some a => ret a | None => panic end.

(** [*p] for a nilable [*User]: nil panics. *)
Definition deref (p : option ptr) : M User :=
  let* p' := nonnil p in let* s := get in nonnil (heap s !! p').

(** [p.Room = r] for a non-nil [p]. *)
Definition setRoom (p : ptr) (r : string) : M unit :=
  modify (fun s =>
    set_heap (alter (fun u => mkUser (Username u) (Password u) (Conn u) r) p (heap s)) s).

(** The outbound events the server builds itself: [Message{Type: t, Content: c}]. *)
Definition reply (t c : string) : Message := mkMessage t "" "" c "".

(** ** The history log: [saveMessageToFile] and [sendChatHistory] *)

(** [fmt.Sprintf("chat_history_%s.txt", room)]. *)
Definition historyPath (room : string) : string :=
  "chat_history_" +:+ room +:+ ".txt".

(** The line feed and the carriage return. *)
Definition LF : Ascii.ascii := Ascii.ascii_of_nat 10.
Definition CR : Ascii.ascii := Ascii.ascii_of_nat 13.

(** [fmt.Sprintf("[%s] %s: %s\n", msg.Room, msg.Sender, msg.Content)]:
    [formatLine] is the text before the line feed, [formatRecord] the
    whole of it. *)
Definition formatLine (msg : Message) : string :=
  "[" +:+ MsgRoom msg +:+ "] " +:+ Sender msg +:+ ": " +:+ Content msg.

Definition formatRecord (msg : Message) : string :=
  formatLine msg +:+ String LF "".

(** [saveMessageToFile]: open for append (creating the file), write one
    line, flush.  A failed open is logged and nothing is written. *)
Definition saveMessageToFile (msg : Message) : M unit :=
  modify (fun s =>
    let path := historyPath (MsgRoom msg) in
    if bool_decide (path ∈ noaccess s) then s
    else set_files (<[path := default "" (files s !! path) +:+ formatRecord msg]> (files s)) s).

(** [bufio.Scanner] with its default split function [ScanLines] and its
    default buffer: a token is the text up to the next line feed, one
    trailing carriage return dropped; a final line without a line feed is a
    token too unless it is empty; a line that does not fit the buffer of
    [MaxScanTokenSize] bytes together with its line feed stops the scan with
    [ErrTooLong]. *)
Definition MaxScanTokenSize : N := 65536.

Fixpoint dropCR (data : string) : string :=
  match data with
  | "" => ""
  | String c "" => if bool_decide (c = CR) then "" else String c ""
  | String c rest => String c (dropCR rest)
  end.

Definition fits (line : string) : bool :=
  (N.of_nat (String.length line) <? MaxScanTokenSize)%N.

(** [scanFrom acc data]: the tokens still to come when [acc] is the part of
    the current line already read and [data] the rest of the file. *)
Fixpoint scanFrom (acc data : string) : list string :=
  match data with
  | "" => if bool_decide (acc = "") then []
          else if fits acc then [dropCR acc] else []
  | String c rest =>
      if bool_decide (c = LF)
      then if fits acc then dropCR acc :: scanFrom "" rest else []
      else scanFrom (acc +:+ String c "") rest
  end.

Definition scanLines (data : string) : list string := scanFrom "" data.

(** The loop [for scanner.Scan() { ws.WriteJSON(...) }]; write errors are
    dropped. *)
Fixpoint replayLines (ws : conn) (lines : list string) : M unit :=
  match lines with
  | [] => ret tt
  | l :: rest =>
      let* _ := WriteJSON ws (reply "history" l) in
      replayLines ws rest
  end.

(** What [sendChatHistory] reads: nothing when the open fails (file absent,
    or any other error), the scanner's tokens otherwise. *)
Definition historyLines (s : State) (room : string) : list string :=
  let path := historyPath room in
  if bool_decide (path ∈ noaccess s) then []
  else match files s !! path with
       | None => []
       | Some data => scanLines data
       end.

Definition sendChatHistory (ws : conn) (room : string) : M unit :=
  let* s := get in
  replayLines ws (historyLines s room).

(** ** The handlers *)

(** [handleSignup]: [&User{Username: msg.Sender, Password: msg.Content}]
    leaves [Conn] nil and [Room] empty. *)
Definition handleSignup (ws : conn) (msg : Message) : M unit :=
  let* s := get in
  match users s !! Sender msg with
  | Some _ =>
      let* _ := WriteJSON ws (reply "error" "Username already exists") in ret tt
  | None =>
      let* _ := modify (fun s =>
        set_users (<[Sender msg := length (heap s)]> (users s))
          (set_heap (heap s ++ [mkUser (Sender msg) (Content msg) None ""]) s)) in
      let* _ := WriteJSON ws (reply "info" "Signup successful") in ret tt
  end.

(** [handleSignin]: binds [clients[ws] = user]; nothing else is assigned. *)
Definition handleSignin (ws : conn) (msg : Message) : M unit :=
  let* s := get in
  let user := users s !! Sender msg in
  let* bad :=
    match user with
    | None => ret true
    | Some p => let* u := deref (Some p) in
                ret (negb (bool_decide (Password u = Content msg)))
    end in
  if (bad : bool) then
    let* _ := WriteJSON ws (reply "error" "Invalid username or password") in ret tt
  else
    let* p := nonnil user in
    let* _ := modify (fun s => set_clients (<[ws := p]> (clients s)) s) in
    let* _ := WriteJSON ws (reply "info" "Signin successful") in ret tt.

Definition handleSignout (ws : conn) : M unit :=
  let* _ := modify (fun s => set_clients (delete ws (clients s)) s) in
  let* _ := WriteJSON ws (reply "info" "Signout successful") in ret tt.

Definition handleCreateRoom (ws : conn) (msg : Message) : M unit :=
  let* s := get in
  match rooms s !! Content msg with
  | Some _ =>
      let* _ := WriteJSON ws (reply "error" "Room already exists") in ret tt
  | None =>
      let* _ := modify (fun s => set_rooms (<[Content msg := []]> (rooms s)) s) in
      let* _ := WriteJSON ws (reply "info" "Room created successfully") in ret tt
  end.

(** [handleJoinRoom]: [user := clients[ws]] is nil for an unbound
    connection, and [user.Room = ...] then panics. *)
Definition handleJoinRoom (ws : conn) (msg : Message) : M unit :=
  let* s := get in
  match rooms s !! Content msg with
  | None =>
      let* _ := WriteJSON ws (reply "error" "Room does not exist") in ret tt
  | Some room =>
      let user := clients s !! ws in
      let* _ := deref user in
      let* p := nonnil user in
      let* _ := setRoom p (Content msg) in
      let* _ := modify (fun s => set_rooms (<[Content msg := room ++ [p]]> (rooms s)) s) in
      let* _ := sendChatHistory ws (Content msg) in
      let* _ := WriteJSON ws (reply "info" "Joined room successfully") in ret tt
  end.

(** The loop of [handleLeaveRoom]: at the first index [i] whose member has
    the leaver's username, [rooms[key] = append(room[:i], room[i+1:]...)]
    and [break]. [rest] is [room[i:]]. *)
Fixpoint leaveLoop (key name : string) (room : list ptr) (i : nat)
    (rest : list ptr) : M unit :=
  match rest with
  | [] => ret tt
  | q :: rest' =>
      let* u := deref (Some q) in
      if bool_decide (Username u = name)
      then modify (fun s =>
             set_rooms (<[key := take i room ++ drop (S i) room]> (rooms s)) s)
      else leaveLoop key name room (S i) rest'
  end.

Definition handleLeaveRoom (ws : conn) (msg : Message) : M unit :=
  let* s := get in
  let user := clients s !! ws in
  let* u := deref user in
  let* p := nonnil user in
  match rooms s !! Room u with
  | None =>
      let* _ := WriteJSON ws (reply "error" "You are not in a room") in ret tt
  | Some room =>
      let* _ := leaveLoop (Room u) (Username u) room 0 room in
      let* _ := setRoom p "" in
      let* _ := WriteJSON ws (reply "info" "Left room successfully") in ret tt
  end.

(** The guard of the fan-out loop: [true] when the loop body reaches the
    push for a member called [name], [false] when it [continue]s. *)
Definition selected (msg : Message) (name : string) : bool :=
  negb (bool_decide (MsgType msg = "dm")
        && negb (bool_decide (name = Target msg))
        && negb (bool_decide (name = Sender msg))).

(** One iteration of the push: [u.Conn.WriteJSON(msg)], and on error
    [u.Conn.Close()] and [delete(clients, u.Conn)]. *)
Definition pushTo (c : option conn) (msg : Message) : M unit :=
  let* c' := nonnil c in
  let* ok := WriteJSON c' msg in
  if (ok : bool) then ret tt
  else
    let* _ := Close c' in
    modify (fun s => set_clients (delete c' (clients s)) s).

(** [for _, u := range members { ... }], shared by [handleChat] and
    [handleMessages]; the latter has no guard, which is [filtered = false]. *)
Fixpoint fanout (filtered : bool) (msg : Message) (members : list ptr) : M unit :=
  match members with
  | [] => ret tt
  | q :: rest =>
      let* u := deref (Some q) in
      let* _ :=
        if filtered && negb (selected msg (Username u)) then ret tt
        else pushTo (Conn u) msg in
      fanout filtered msg rest
  end.

Definition withRoom (msg : Message) (r : string) : Message :=
  mkMessage (MsgType msg) (Sender msg) (Target msg) (Content msg) r.

Definition handleChat (ws : conn) (msg : Message) : M unit :=
  let* s := get in
  let* user := deref (clients s !! ws) in
  if bool_decide (Room user = "") then
    let* _ := WriteJSON ws (reply "error" "You are not in a room") in ret tt
  else
    let msg := withRoom msg (Room user) in
    let* s := get in
    let* _ := fanout true msg (default [] (rooms s !! Room user)) in
    saveMessageToFile msg.

(** [handleMessages], one turn of its loop, for the event [startCLI] builds
    from a console line. *)
Definition handleMessages (msg : Message) : M unit :=
  let* s := get in
  let* _ := fanout false msg (default [] (rooms s !! MsgRoom msg)) in
  saveMessageToFile msg.

(** The [switch msg.Type] of [handleConnections]; an unknown type falls
    through without any action. *)
Definition dispatch (ws : conn) (msg : Message) : M unit :=
  if bool_decide (MsgType msg = "signup") then handleSignup ws msg
  else if bool_decide (MsgType msg = "signin") then handleSignin ws msg
  else if bool_decide (MsgType msg = "signout") then handleSignout ws
  else if bool_decide (MsgType msg = "create_room") then handleCreateRoom ws msg
  else if bool_decide (MsgType msg = "join_room") then handleJoinRoom ws msg
  else if bool_decide (MsgType msg = "leave_room") then handleLeaveRoom ws msg
  else if bool_decide (MsgType msg = "broadcast") || bool_decide (MsgType msg = "dm")
       then handleChat ws msg
  else ret tt.

(** ** The server loop *)

(** What can happen next: [ReadJSON] on [ws] returns a message or an error,
    the peer of [ws] goes away, the operator enters a console line
    ([text] is the line after [strings.TrimSpace]), or a request to [/ws]
    fails the websocket handshake. *)
Inductive event :=
| Recv (ws : conn) (msg : Message)
| ReadErr (ws : conn)
| NetDown (ws : conn)
| Console (text : string)
| UpgradeFailed.

(** The reader goroutine of [ws] returns: [defer ws.Close()] runs. *)
Definition endConn (ws : conn) (s : State) : State :=
  set_ended ({[ws]} ∪ ended s) (set_closed ({[ws]} ∪ closed s) s).

(** The error branch of the read loop: [delete(clients, ws)], [break]. *)
Definition readFailed (ws : conn) (s : State) : State :=
  endConn ws (set_clients (delete ws (clients s)) s).

(** One step of the server; [None] is the end of the process.  A panic in
    a handler unwinds the reader goroutine of its connection (the deferred
    [ws.Close()] runs) and is recovered by [net/http], which serves each
    connection in a goroutine of its own; a panic in [handleMessages],
    started with [go handleMessages()], is recovered by nobody; a failed
    [upgrader.Upgrade] ends in [log.Fatal]. *)
Definition step (s : State) (e : event) : option State :=
  match e with
  | Recv ws msg =>
      if bool_decide (ws ∈ ended s) then Some s
      else if bool_decide (ws ∈ closed s) then Some (readFailed ws s)
      else match dispatch ws msg s with
           | Ret _ s' => Some s'
           | Panic s' => Some (endConn ws s')
           end
  | ReadErr ws =>
      if bool_decide (ws ∈ ended s) then Some s else Some (readFailed ws s)
  | NetDown ws => Some (set_down ({[ws]} ∪ down s) s)
  | Console text =>
      if bool_decide (text = "") then Some s
      else match handleMessages (mkMessage "broadcast" "server" "" text "") s with
           | Ret _ s' => Some s'
           | Panic _ => None
           end
  | UpgradeFailed => None
  end.

Fixpoint run (s : State) (es : list event) : option State :=
  match es with
  | [] => Some s
  | e :: es' => match step s e with
                | Some s' => run s' es'
                | None => None
                end
  end.

Inductive reachable : State → Prop :=
| reach_boot fs na : reachable (boot fs na)
| reach_step s e s' : reachable s → step s e = Some s' → reachable s'.

(** Inbound events as a client builds them. *)
Definition signupMsg (name pw : string) : Message := mkMessage "signup" name "" pw "".
Definition signinMsg (name pw : string) : Message := mkMessage "signin" name "" pw "".
Definition signoutMsg : Message := mkMessage "signout" "" "" "" "".
Definition createRoomMsg (r : string) : Message := mkMessage "create_room" "" "" r "".
Definition joinRoomMsg (r : string) : Message := mkMessage "join_room" "" "" r "".
Definition leaveRoomMsg : Message := mkMessage "leave_room" "" "" "" "".
Definition broadcastMsg (name text : string) : Message :=
  mkMessage "broadcast" name "" text "".
Definition dmMsg (name target text : string) : Message :=
  mkMessage "dm" name target text "".

(** * Vocabulary of the properties *)

(** ** States a handler ends in, and views of a state *)

(** The state after one [WriteJSON] on a non-nil handle. *)
Definition say (c : conn) (m : Message) (s : State) : State :=
  set_trace (trace s ++ [Push c m (alive s c)]) s.

(** The state after the replay loop: one [history] event per line. *)
Definition replayed (ws : conn) (lines : list string) (s : State) : State :=
  set_trace (trace s ++ map (fun l => Push ws (reply "history" l) (alive s ws)) lines) s.

(** The state after [p.Room = r]. *)
Definition setRoomOf (p : ptr) (r : string) (s : State) : State :=
  set_heap (alter (fun u => mkUser (Username u) (Password u) (Conn u) r) p (heap s)) s.

(** The trace entries a handler added. *)
Definition emitted (s s' : State) : list io := drop (length (trace s)) (trace s').

(** The events of the trace that went through to connection [c]. *)
Definition received (s : State) (c : conn) : list Message :=
  omap (fun e => match e with
                 | Push c' m ok => if bool_decide (c' = c) && ok then Some m else None
                 end) (trace s).

(** The username behind a member pointer. *)
Definition usernameOf (s : State) (q : ptr) : option string :=
  Username <$> heap s !! q.

(** The credential the Identity Store holds for a username. *)
Definition credential (s : State) (name : string) : option string :=
  match users s !! name with
  | Some p => Password <$> heap s !! p
  | None => None
  end.

(** The text of a room's log; an absent file reads as the empty text. *)
Definition logOf (s : State) (room : string) : string :=
  default "" (files s !! historyPath room).

(** ** Relations between states, and the invariant *)

(** What a fan-out can change: it unbinds and closes connections and
    extends the trace; every other component stays as it was. *)
Definition fan_frame (s s' : State) : Prop :=
  heap s' = heap s ∧ users s' = users s ∧ rooms s' = rooms s ∧
  files s' = files s ∧ noaccess s' = noaccess s ∧ down s' = down s ∧
  ended s' = ended s ∧ clients s' ⊆ clients s ∧ closed s ⊆ closed s' ∧
  trace s `prefix_of` trace s'.

(** [users] keeps every entry and every [User] object keeps its name and
    password (and its nil [Conn]). *)
Definition stable (s s' : State) : Prop :=
  (∀ name p, users s !! name = Some p → users s' !! name = Some p) ∧
  (∀ p x, heap s !! p = Some x →
     ∃ x', heap s' !! p = Some x' ∧ Username x' = Username x ∧
           Password x' = Password x ∧ Conn x' = Conn x).

(** The registries only hold pointers to allocated [User] objects, one per
    username; a [User] whose [Room] is not empty is listed in that room;
    and every [Conn] is nil. *)
Record Inv (s : State) : Prop := mkInv {
  inv_users : ∀ name p, users s !! name = Some p →
                ∃ u, heap s !! p = Some u ∧ Username u = name;
  inv_heap : ∀ p u, heap s !! p = Some u → users s !! Username u = Some p;
  inv_clients : ∀ ws p, clients s !! ws = Some p → is_Some (heap s !! p);
  inv_rooms : ∀ r l p, rooms s !! r = Some l → p ∈ l → is_Some (heap s !! p);
  inv_room : ∀ p u, heap s !! p = Some u → Room u ≠ "" →
               ∃ l, rooms s !! Room u = Some l ∧ p ∈ l;
  inv_conn : ∀ p u, heap s !! p = Some u → Conn u = None
}.

(** ** The delivery set of a chat event *)

(** Whether the fan-out loop of [handleChat] gets past its guard at member
    [q] (a pointer with no object behind it never gets as far as the
    guard, and counts as chosen). *)
Definition chosen (h : list User) (msg : Message) (q : ptr) : bool :=
  match h !! q with
  | Some u => selected msg (Username u)
  | None => true
  end.

(** The members for which the loop reaches the push, in list order. *)
Definition deliverySet (h : list User) (msg : Message) (members : list ptr) : list ptr :=
  filter (fun q => chosen h msg q = true) members.

(** ** States of a fan-out over members that carry a handle

    No reachable state has a member with a non-nil [Conn]; these are the
    states the loop of [handleChat] goes through when every member
    carries one. *)

(** The handle of member [q]. *)
Definition connOf (h : list User) (q : ptr) : option conn := h !! q ≫= Conn.

(** The error branch of the push: [Close] and [delete(clients, c)]. *)
Definition unbind (c : conn) (s : State) : State :=
  set_clients (delete c (clients s)) (set_closed ({[c]} ∪ closed s) s).

(** The state after one push to [c], and after pushes to all of [cs]. *)
Definition pushed (msg : Message) (s : State) (c : conn) : State :=
  if alive s c then say c msg s else unbind c (say c msg s).

Definition pushedAll (msg : Message) (cs : list conn) (s : State) : State :=
  foldl (pushed msg) s cs.

(** ** Lines and records of a history log *)

(** Whether the byte [c] occurs in [s]. *)
Fixpoint contains (c : Ascii.ascii) (s : string) : bool :=
  match s with
  | "" => false
  | String x rest => bool_decide (x = c) || contains c rest
  end.

(** A line the scanner hands back as it was written: no line feed inside,
    no carriage return at the end, short enough for the buffer. *)
Definition plainLine (l : string) : Prop :=
  contains LF l = false ∧ dropCR l = l ∧ fits l = true.

(** The log that holds the lines [ls], each ended by a line feed. *)
Fixpoint unlines (ls : list string) : string :=
  match ls with
  | [] => ""
  | l :: rest => l +:+ String LF (unlines rest)
  end.

(** A record whose line comes back as it was appended. *)
Definition plainRecord (m : Message) : Prop :=
  contains LF (MsgRoom m) = false ∧ contains LF (Sender m) = false ∧
  contains LF (Content m) = false ∧ dropCR (Content m) = Content m ∧
  fits (formatLine m) = true.

(** [N] appends in a row. *)
Fixpoint appendAll (msgs : list Message) : M unit :=
  match msgs with
  | [] => ret tt
  | m :: rest => let* _ := saveMessageToFile m in appendAll rest
  end.

(** ** The claims that fail, as the spec words them *)

(** What the spec asks of the Connection Registry: the session bound to a
    connection carries that connection. *)
Definition bound_to_self (s : State) : Prop :=
  ∀ ws p, clients s !! ws = Some p →
    ∃ u, heap s !! p = Some u ∧ Conn u = Some ws.

(** C3 as the spec words it: whoever is listed in a room has that room as
    its [Room]; so nobody is listed in two rooms. *)
Definition single_room (s : State) : Prop :=
  ∀ p r l, rooms s !! r = Some l → p ∈ l → Room <$> heap s !! p = Some r.

(** C6 as the spec words it: the event is answered by exactly one
    [error] event on the originating connection. *)
Definition routing_error (s : State) (ws : conn) (msg : Message) : Prop :=
  ∃ text ok, emitted s (final (dispatch ws msg s)) = [Push ws (reply "error" text) ok].

(** The round trip as the spec words it: after the appends, a replay to
    [ws] carries one [history] event per record, in append order. *)
Definition roundtrip (s : State) (ws : conn) (room : string) (msgs : list Message) : Prop :=
  let s1 := final (appendAll msgs s) in
  emitted s1 (final (sendChatHistory ws room s1)) =
  map (fun m => Push ws (reply "history" (formatLine m)) (alive s1 ws)) msgs.

(** ** Scenarios *)

(** Alice signs up and signs in on connection 1. *)
Definition alice_online : list event :=
  [Recv 1 (signupMsg "alice" "pw1"); Recv 1 (signinMsg "alice" "pw1")].

(** Three users a, b, c on connections 1, 2, 3, all in room R. *)
Definition three_in_room : list event :=
  [Recv 1 (signupMsg "a" "x"); Recv 2 (signupMsg "b" "y"); Recv 3 (signupMsg "c" "z");
   Recv 1 (signinMsg "a" "x"); Recv 2 (signinMsg "b" "y"); Recv 3 (signinMsg "c" "z");
   Recv 1 (createRoomMsg "R");
   Recv 1 (joinRoomMsg "R"); Recv 2 (joinRoomMsg "R"); Recv 3 (joinRoomMsg "R")].

(** The state [three_in_room] leads to. *)
Definition room_of_three : State := default init (run init three_in_room).

(** The room of three with a handle written into every [User] by hand;
    this state is not reachable. *)
Definition populated_room : State :=
  set_heap [mkUser "a" "x" (Some 1) "R"; mkUser "b" "y" (Some 2) "R";
            mkUser "c" "z" (Some 3) "R"] room_of_three.

(** A log of two lines. *)
Definition lobby_log : string :=
  "[lobby] bob: hello" +:+ String LF ("[lobby] bob: bye" +:+ String LF "").

(** A server started next to the log of an earlier run; alice is signed in
    and the room exists again. *)
Definition restarted : State :=
  default init
    (run (boot {[historyPath "lobby" := lobby_log]} ∅)
         (alice_online ++ [Recv 1 (createRoomMsg "lobby")])).

(** A record whose content holds a line feed. *)
Definition two_line_record : Message :=
  mkMessage "broadcast" "alice" "" ("a" +:+ String LF "b") "lobby".

(** Two records as [handleChat] hands them to [saveMessageToFile]. *)
Definition two_records : list Message :=
  [mkMessage "broadcast" "alice" "" "hi" "lobby";
   mkMessage "dm" "bob" "alice" "yo" "lobby"].

(** Alice is signed in on connection 1, has joined nothing, and a room
    with the empty name has been created. *)
Definition nameless_room : list event :=
  alice_online ++ [Recv 1 (createRoomMsg "")].

(** Alice, signed in on connection 1, creates rooms A and B and joins A;
    then she joins B. *)
Definition alice_in_A : list event :=
  alice_online ++
  [Recv 1 (createRoomMsg "A"); Recv 1 (createRoomMsg "B"); Recv 1 (joinRoomMsg "A")].

Definition joins_A_then_B : list event := alice_in_A ++ [Recv 1 (joinRoomMsg "B")].

(** ** Vocabulary of the further properties *)

(** [l] without its first entry equal to [p]. *)
Fixpoint removeFirst (p : ptr) (l : list ptr) : list ptr :=
  match l with
  | [] => []
  | q :: rest => if decide (q = p) then rest else q :: removeFirst p rest
  end.

(** The log that holds the lines [ls], each ended by a carriage return and
    a line feed. *)
Fixpoint unlinesCRLF (ls : list string) : string :=
  match ls with
  | [] => ""
  | l :: rest => l +:+ String CR (String LF (unlinesCRLF rest))
  end.

(** [n] times the byte [c]. *)
Fixpoint repeatByte (n : nat) (c : Ascii.ascii) : string :=
  match n with
  | 0 => ""
  | S n' => String c (repeatByte n' c)
  end.

(** What a step of the server never undoes: rooms stay, logs only grow at
    their end, and the unreadable paths, the closed connections and the
    trace are kept. *)
Definition grows (s s' : State) : Prop :=
  (∀ r, is_Some (rooms s !! r) → is_Some (rooms s' !! r)) ∧
  (∀ path d, files s !! path = Some d → ∃ d', files s' !! path = Some (d +:+ d')) ∧
  noaccess s' = noaccess s ∧ closed s ⊆ closed s' ∧ trace s `prefix_of` trace s'.

(** What a handler other than the chat handler writes: events of type
    info, error or history, all on the connection [ws]. *)
Definition reply_to (ws : conn) (e : io) : Prop :=
  match e with
  | Push c m _ =>
      c = ws ∧ (MsgType m = "info" ∨ MsgType m = "error" ∨ MsgType m = "history")
  end.

(** The event the operator console builds from a line. *)
Definition consoleMsg (text : string) : Message :=
  mkMessage "broadcast" "server" "" text "".

(** Alice is signed in on connections 1 and 2, and room lobby exists. *)
Definition alice_twice : list event :=
  alice_online ++ [Recv 2 (signinMsg "alice" "pw1"); Recv 1 (createRoomMsg "lobby")].

Definition alice_twice_state : State := default init (run init alice_twice).

(** The state [alice_online] leads to. *)
Definition alice_online_state : State := default init (run init alice_online).

(** After the restart alice joins lobby and sends a dm whose sender and
    target name nobody in the room. *)
Definition after_dm : State :=
  default init
    (run restarted [Recv 1 (joinRoomMsg "lobby"); Recv 1 (dmMsg "x" "y" "hi")]).

(** Alice has created the room with the empty name and joined it. *)
Definition alice_in_nameless : list event :=
  nameless_room ++ [Recv 1 (joinRoomMsg "")].

Definition alice_in_nameless_state : State :=
  default init (run init alice_in_nameless).

(** A line of 65536 bytes. *)
Definition long_line : string := repeatByte (N.to_nat 65536) (Ascii.ascii_of_nat 120).

(** ** Replay on join and delivery sets, as the spec words them *)








(** * Properties *)

(** ** The handlers in closed form *)

Ltac unmonad :=
  cbv beta iota delta [bind ret get modify panic nonnil deref WriteJSON Close setRoom].

Lemma handleSignup_eq ws msg s :
  handleSignup ws msg s =
  Ret tt match users s !! Sender msg with
         | Some _ => say ws (reply "error" "Username already exists") s
         | None =>
             say ws (reply "info" "Signup successful")
               (set_users (<[Sender msg := length (heap s)]> (users s))
                 (set_heap (heap s ++ [mkUser (Sender msg) (Content msg) None ""]) s))
         end.
Proof.
  unfold handleSignup; unmonad.
  destruct (users s !! Sender msg); reflexivity.
Qed.

Lemma handleSignout_eq ws s :
  handleSignout ws s =
  Ret tt (say ws (reply "info" "Signout successful")
            (set_clients (delete ws (clients s)) s)).
Proof. reflexivity. Qed.

Lemma handleCreateRoom_eq ws msg s :
  handleCreateRoom ws msg s =
  Ret tt match rooms s !! Content msg with
         | Some _ => say ws (reply "error" "Room already exists") s
         | None =>
             say ws (reply "info" "Room created successfully")
               (set_rooms (<[Content msg := []]> (rooms s)) s)
         end.
Proof.
  unfold handleCreateRoom; unmonad.
  destruct (rooms s !! Content msg); reflexivity.
Qed.

Lemma handleSignin_eq ws msg s :
  handleSignin ws msg s =
  match users s !! Sender msg with
  | None => Ret tt (say ws (reply "error" "Invalid username or password") s)
  | Some p =>
      match heap s !! p with
      | None => Panic s
      | Some u =>
          if bool_decide (Password u = Content msg)
          then Ret tt (say ws (reply "info" "Signin successful")
                         (set_clients (<[ws := p]> (clients s)) s))
          else Ret tt (say ws (reply "error" "Invalid username or password") s)
      end
  end.
Proof.
  unfold handleSignin; unmonad.
  destruct (users s !! Sender msg) as [p|]; [|reflexivity].
  destruct (heap s !! p) as [u|]; [|reflexivity].
  destruct (bool_decide (Password u = Content msg)); reflexivity.
Qed.

Lemma replayLines_eq ws lines s :
  replayLines ws lines s = Ret tt (replayed ws lines s).
Proof.
  revert s; induction lines as [|l lines IH]; intros s.
  - destruct s; unfold replayed; simpl. by rewrite app_nil_r.
  - cbn [replayLines]. unfold bind at 1. cbn [WriteJSON]. rewrite IH.
    destruct s; unfold replayed, alive; simpl. by rewrite <- app_assoc.
Qed.

Lemma handleJoinRoom_eq ws msg s :
  handleJoinRoom ws msg s =
  match rooms s !! Content msg with
  | None => Ret tt (say ws (reply "error" "Room does not exist") s)
  | Some room =>
      match clients s !! ws with
      | None => Panic s
      | Some p =>
          match heap s !! p with
          | None => Panic s
          | Some _ =>
              Ret tt (say ws (reply "info" "Joined room successfully")
                        (replayed ws (historyLines s (Content msg))
                           (set_rooms (<[Content msg := room ++ [p]]> (rooms s))
                              (setRoomOf p (Content msg) s))))
          end
      end
  end.
Proof.
  unfold handleJoinRoom; unmonad.
  destruct (rooms s !! Content msg) as [room|]; [|reflexivity].
  destruct (clients s !! ws) as [p|]; [|reflexivity].
  destruct (heap s !! p) as [u|]; [|reflexivity].
  unfold sendChatHistory; unmonad. rewrite replayLines_eq. reflexivity.
Qed.

Lemma fan_frame_refl s : fan_frame s s.
Proof. unfold fan_frame; repeat split; done. Qed.

Lemma fan_frame_trans s1 s2 s3 :
  fan_frame s1 s2 → fan_frame s2 s3 → fan_frame s1 s3.
Proof.
  unfold fan_frame; intros (?&?&?&?&?&?&?&?&?&?) (?&?&?&?&?&?&?&?&?&?).
  repeat split; try congruence; by etrans.
Qed.

Lemma pushTo_frame c msg s : fan_frame s (final (pushTo c msg s)).
Proof.
  unfold pushTo; unmonad. destruct c as [c|]; [|apply fan_frame_refl].
  destruct (alive s c); destruct s; unfold fan_frame; simpl;
    repeat split; try done; try apply prefix_app_r; try done.
  - apply delete_subseteq.
  - set_solver.
Qed.

Lemma fanout_frame f msg l s : fan_frame s (final (fanout f msg l s)).
Proof.
  revert s; induction l as [|q l IH]; intros s; [apply fan_frame_refl|].
  cbn [fanout]. unfold bind at 1. unfold deref; unmonad.
  destruct (heap s !! q) as [u|]; [|apply fan_frame_refl].
  unfold bind.
  destruct (f && negb (selected msg (Username u))).
  - apply IH.
  - pose proof (pushTo_frame (Conn u) msg s) as Hp.
    destruct (pushTo (Conn u) msg s) as [[] s'|s']; [|exact Hp].
    eapply fan_frame_trans; [exact Hp|apply IH].
Qed.

Lemma leaveLoop_cases key name room i rest s :
  leaveLoop key name room i rest s = Ret tt s ∨
  leaveLoop key name room i rest s = Panic s ∨
  ∃ j q u, rest !! j = Some q ∧ heap s !! q = Some u ∧ Username u = name ∧
    leaveLoop key name room i rest s =
    Ret tt (set_rooms (<[key := take (i + j) room ++ drop (S (i + j)) room]> (rooms s)) s).
Proof.
  revert i; induction rest as [|q rest IH]; intros i; [by left|].
  cbn [leaveLoop]; unmonad.
  destruct (heap s !! q) as [u|] eqn:Hq; [|by right; left].
  case_bool_decide as Hn.
  - right; right. exists 0, q, u. rewrite Nat.add_0_r. done.
  - destruct (IH (S i)) as [H|[H|(j&q'&u'&?&?&?&H)]]; rewrite H.
    + by left.
    + by right; left.
    + right; right. exists (S j), q', u'.
      replace (i + S j) with (S i + j) by lia. done.
Qed.

Lemma handleLeaveRoom_eq ws msg s :
  handleLeaveRoom ws msg s =
  match clients s !! ws with
  | None => Panic s
  | Some p =>
      match heap s !! p with
      | None => Panic s
      | Some u =>
          match rooms s !! Room u with
          | None => Ret tt (say ws (reply "error" "You are not in a room") s)
          | Some room =>
              match leaveLoop (Room u) (Username u) room 0 room s with
              | Ret _ s1 =>
                  Ret tt (say ws (reply "info" "Left room successfully")
                            (setRoomOf p "" s1))
              | Panic s1 => Panic s1
              end
          end
      end
  end.
Proof.
  unfold handleLeaveRoom; unmonad.
  destruct (clients s !! ws) as [p|]; [|reflexivity].
  destruct (heap s !! p) as [u|]; [|reflexivity].
  destruct (rooms s !! Room u) as [room|]; [|reflexivity].
  destruct (leaveLoop _ _ _ _ _ _); reflexivity.
Qed.

Lemma handleChat_eq ws msg s :
  handleChat ws msg s =
  match clients s !! ws with
  | None => Panic s
  | Some p =>
      match heap s !! p with
      | None => Panic s
      | Some u =>
          if bool_decide (Room u = "")
          then Ret tt (say ws (reply "error" "You are not in a room") s)
          else match fanout true (withRoom msg (Room u))
                       (default [] (rooms s !! Room u)) s with
               | Ret _ s1 => saveMessageToFile (withRoom msg (Room u)) s1
               | Panic s1 => Panic s1
               end
      end
  end.
Proof.
  unfold handleChat; unmonad.
  destruct (clients s !! ws) as [p|]; [|reflexivity].
  destruct (heap s !! p) as [u|]; [|reflexivity].
  destruct (bool_decide (Room u = "")); reflexivity.
Qed.

(** ** The Identity Store only grows *)

Lemma stable_refl s : stable s s.
Proof. split; eauto. Qed.

Lemma stable_trans s1 s2 s3 : stable s1 s2 → stable s2 s3 → stable s1 s3.
Proof.
  intros [U1 H1] [U2 H2]; split; [eauto|].
  intros p x Hx. destruct (H1 _ _ Hx) as (x'&Hx'&?&?&?).
  destruct (H2 _ _ Hx') as (x''&?&?&?&?). exists x''; repeat split; congruence.
Qed.

Lemma stable_same s s' s'' :
  stable s s' → heap s'' = heap s' → users s'' = users s' → stable s s''.
Proof. intros [U H] Hh Hu; split; rewrite ?Hh, ?Hu; done. Qed.

Lemma stable_setRoomOf p r s : stable s (setRoomOf p r s).
Proof.
  split; [done|]. intros q x Hx. cbn.
  rewrite list_lookup_alter. case_decide; subst.
  - rewrite Hx; cbn. eauto.
  - eauto.
Qed.

Lemma fan_frame_stable s s' : fan_frame s s' → stable s s'.
Proof.
  intros (Hh&Hu&_). eapply stable_same; [apply stable_refl|done..].
Qed.

Ltac same_store := eapply stable_same; [apply stable_refl|reflexivity..].

Lemma handleSignup_stable ws msg s : stable s (final (handleSignup ws msg s)).
Proof.
  rewrite handleSignup_eq; cbn [final].
  destruct (users s !! Sender msg) eqn:E; [same_store|].
  split; cbn.
  - intros name p Hn. rewrite lookup_insert_ne; [done|congruence].
  - intros p x Hx. exists x. by rewrite (lookup_app_l_Some _ _ _ x).
Qed.

Lemma handleSignin_stable ws msg s : stable s (final (handleSignin ws msg s)).
Proof.
  rewrite handleSignin_eq.
  repeat case_match; cbn [final]; same_store.
Qed.

Lemma handleJoinRoom_stable ws msg s : stable s (final (handleJoinRoom ws msg s)).
Proof.
  rewrite handleJoinRoom_eq.
  repeat case_match; cbn [final]; try same_store.
  eapply stable_same; [eapply stable_setRoomOf|reflexivity..].
Qed.

Lemma handleLeaveRoom_stable ws msg s : stable s (final (handleLeaveRoom ws msg s)).
Proof.
  rewrite handleLeaveRoom_eq.
  destruct (clients s !! ws) as [p|]; [|apply stable_refl].
  destruct (heap s !! p) as [u|]; [|apply stable_refl].
  destruct (rooms s !! Room u) as [room|]; [|same_store].
  destruct (leaveLoop_cases (Room u) (Username u) room 0 room s)
    as [H|[H|(j&q&u'&_&_&_&H)]]; rewrite H; cbn [final].
  - eapply stable_same; [apply (stable_setRoomOf p "")|reflexivity..].
  - apply stable_refl.
  - eapply stable_same; [apply (stable_setRoomOf p "")|reflexivity..].
Qed.

Lemma saveMessageToFile_stable msg s :
  stable s (final (saveMessageToFile msg s)).
Proof.
  unfold saveMessageToFile; unmonad; cbn [final].
  case_bool_decide; same_store.
Qed.

Lemma handleChat_stable ws msg s : stable s (final (handleChat ws msg s)).
Proof.
  rewrite handleChat_eq.
  destruct (clients s !! ws) as [p|]; [|apply stable_refl].
  destruct (heap s !! p) as [u|]; [|apply stable_refl].
  case_bool_decide; [same_store|].
  pose proof (fanout_frame true (withRoom msg (Room u))
                (default [] (rooms s !! Room u)) s) as Hf.
  apply fan_frame_stable in Hf.
  destruct (fanout _ _ _ _) as [[] s1|s1]; cbn [final] in *; [|done].
  eapply stable_trans; [exact Hf|apply saveMessageToFile_stable].
Qed.

Lemma handleMessages_stable msg s : stable s (final (handleMessages msg s)).
Proof.
  unfold handleMessages; unmonad.
  pose proof (fanout_frame false msg (default [] (rooms s !! MsgRoom msg)) s) as Hf.
  apply fan_frame_stable in Hf.
  destruct (fanout _ _ _ _) as [[] s1|s1]; cbn [final] in *; [|done].
  eapply stable_trans; [exact Hf|apply saveMessageToFile_stable].
Qed.

Lemma dispatch_stable ws msg s : stable s (final (dispatch ws msg s)).
Proof.
  unfold dispatch.
  repeat case_match;
    auto using handleSignup_stable, handleSignin_stable, handleJoinRoom_stable,
      handleLeaveRoom_stable, handleChat_stable, stable_refl.
  - rewrite handleSignout_eq; same_store.
  - rewrite handleCreateRoom_eq; cbn [final]; case_match; same_store.
Qed.

Lemma step_stable s e s' : step s e = Some s' → stable s s'.
Proof.
  destruct e as [ws msg|ws|ws|text|]; cbn [step]; intros H; [| | | |done].
  - pose proof (dispatch_stable ws msg s) as Hd.
    repeat case_match; simplify_eq; try apply stable_refl; try same_store.
    + exact Hd.
    + eapply stable_same; [exact Hd|reflexivity..].
  - repeat case_match; simplify_eq; [apply stable_refl|same_store].
  - simplify_eq. same_store.
  - pose proof (handleMessages_stable (mkMessage "broadcast" "server" "" text "") s) as Hd.
    repeat case_match; simplify_eq; [apply stable_refl|exact Hd].
Qed.

Lemma run_stable es : ∀ s s', run s es = Some s' → stable s s'.
Proof.
  induction es as [|e es IH]; intros s s' H; cbn in H.
  - simplify_eq. apply stable_refl.
  - destruct (step s e) as [s1|] eqn:E; [|done].
    eapply stable_trans; [eapply step_stable; exact E|eauto].
Qed.

Lemma credential_stable s s' name c :
  stable s s' → credential s name = Some c → credential s' name = Some c.
Proof.
  intros [U H]. unfold credential.
  destruct (users s !! name) as [p|] eqn:E; [|done].
  rewrite (U _ _ E). destruct (heap s !! p) as [x|] eqn:Hx; [|done].
  destruct (H _ _ Hx) as (x'&->&_&Hp&_). cbn. congruence.
Qed.

Lemma credential_say s c m name : credential (say c m s) name = credential s name.
Proof. reflexivity. Qed.

(** C9. A sign-up of a username that is free succeeds and stores the
    credential; whatever the server does afterwards, a second sign-up of the
    same username, from any connection and with any credential, only sends
    the error event [Username already exists] to its connection (the state
    is otherwise untouched), and the Identity Store still maps the username
    to the credential of the first sign-up. *)
Theorem signup_twice_DuplicateIdentity
    (s s2 : State) (ws ws' : conn) (first second : Message) (es : list event) :
  users s !! Sender first = None →
  Sender second = Sender first →
  run (final (handleSignup ws first s)) es = Some s2 →
  last (trace (final (handleSignup ws first s))) =
    Some (Push ws (reply "info" "Signup successful") (alive s ws)) ∧
  credential (final (handleSignup ws first s)) (Sender first) = Some (Content first) ∧
  handleSignup ws' second s2 =
    Ret tt (say ws' (reply "error" "Username already exists") s2) ∧
  credential (final (handleSignup ws' second s2)) (Sender first) = Some (Content first).
Proof.
  intros Hfree Hsame Hrun.
  assert (Hc : credential (final (handleSignup ws first s)) (Sender first)
               = Some (Content first)).
  { rewrite handleSignup_eq, Hfree; cbn [final]. rewrite credential_say.
    unfold credential; cbn. rewrite lookup_insert_eq.
    rewrite lookup_app_r by done. by rewrite Nat.sub_diag. }
  assert (Hc2 : credential s2 (Sender first) = Some (Content first)).
  { eapply credential_stable; [eapply run_stable; exact Hrun|exact Hc]. }
  assert (Hdup : handleSignup ws' second s2 =
                 Ret tt (say ws' (reply "error" "Username already exists") s2)).
  { rewrite handleSignup_eq, Hsame. unfold credential in Hc2.
    destruct (users s2 !! Sender first); [done|discriminate]. }
  repeat split; [|exact Hc|exact Hdup|by rewrite Hdup].
  rewrite handleSignup_eq, Hfree; cbn. by rewrite last_snoc.
Qed.

Lemma signup_twice_DuplicateIdentity_witness :
  let first := signupMsg "alice" "pw1" in
  let second := signupMsg "alice" "other" in
  let s2 := final (handleSignin 1 (signinMsg "alice" "pw1")
                     (final (handleSignup 1 first init))) in
  handleSignup 2 second s2 =
    Ret tt (say 2 (reply "error" "Username already exists") s2) ∧
  credential (final (handleSignup 2 second s2)) "alice" = Some "pw1".
Proof.
  intros first second s2.
  pose proof (signup_twice_DuplicateIdentity init s2 1 2 first second
                [Recv 1 (signinMsg "alice" "pw1")]) as H.
  destruct H as (_&_&H1&H2); [reflexivity|reflexivity|vm_compute; reflexivity|].
  split; [exact H1|exact H2].
Defined.

(** ** What holds in every reachable state *)

Lemma Inv_boot fs na : Inv (boot fs na).
Proof. split; cbn; intros; simplify_map_eq; try done. Qed.

Lemma Inv_unbind s s' :
  Inv s → heap s' = heap s → users s' = users s → rooms s' = rooms s →
  clients s' ⊆ clients s → Inv s'.
Proof.
  intros [I1 I2 I3 I4 I5 I6] Hh Hu Hr Hc.
  split; rewrite ?Hh, ?Hu, ?Hr; try done.
  intros ws p Hp. eapply I3, lookup_weaken; eauto.
Qed.

Ltac same_regs := eapply Inv_unbind; [eassumption|reflexivity..|done].

Lemma Inv_signup s name pw :
  Inv s → users s !! name = None →
  Inv (set_users (<[name := length (heap s)]> (users s))
         (set_heap (heap s ++ [mkUser name pw None ""]) s)).
Proof.
  intros [I1 I2 I3 I4 I5 I6] Hfree. split; cbn.
  - intros name' p. rewrite lookup_insert. case_decide; subst.
    + intros [= <-]. eexists. rewrite lookup_app_r by done.
      rewrite Nat.sub_diag. done.
    + intros Hp. destruct (I1 _ _ Hp) as (u&Hu&?). exists u.
      split; [by apply lookup_app_l_Some|done].
  - intros p u. rewrite lookup_snoc_Some. intros [[_ Hu]|[-> <-]].
    + rewrite lookup_insert_ne; [by apply I2|].
      intros ->. apply I2 in Hu. congruence.
    + apply lookup_insert_eq.
  - intros ws p Hp. destruct (I3 _ _ Hp) as [u Hu].
    exists u. by apply lookup_app_l_Some.
  - intros r l p Hl Hp. destruct (I4 _ _ _ Hl Hp) as [u Hu].
    exists u. by apply lookup_app_l_Some.
  - intros p u. rewrite lookup_snoc_Some. intros [[_ Hu]|[-> <-]]; [by apply I5|done].
  - intros p u. rewrite lookup_snoc_Some. intros [[_ Hu]|[-> <-]]; [by eapply I6|done].
Qed.

Lemma Inv_signin s ws name p :
  Inv s → users s !! name = Some p →
  Inv (set_clients (<[ws := p]> (clients s)) s).
Proof.
  intros [I1 I2 I3 I4 I5 I6] Hp. split; try done. cbn.
  intros ws' q. rewrite lookup_insert. case_decide; [|by apply I3].
  intros [= <-]. destruct (I1 _ _ Hp) as (u&->&_). done.
Qed.

Lemma Inv_create s r :
  Inv s → rooms s !! r = None → Inv (set_rooms (<[r := []]> (rooms s)) s).
Proof.
  intros [I1 I2 I3 I4 I5 I6] Hr. split; try done; cbn.
  - intros r' l p. rewrite lookup_insert. case_decide.
    + intros [= <-]. by intros ?%elem_of_nil.
    + apply I4.
  - intros p u Hu Hne. destruct (I5 _ _ Hu Hne) as (l&Hl&?).
    exists l. rewrite lookup_insert_ne; [done|congruence].
Qed.

Lemma lookup_setRoomOf s p r q x :
  heap (setRoomOf p r s) !! q = Some x ↔
  ∃ u, heap s !! q = Some u ∧ Username x = Username u ∧ Password x = Password u ∧
       Conn x = Conn u ∧ Room x = if decide (p = q) then r else Room u.
Proof.
  cbn. rewrite list_lookup_alter. case_decide; subst.
  - destruct (heap s !! q) as [u|]; cbn; split.
    + intros [= <-]. by exists u.
    + intros (u'&[= <-]&?&?&?&?). destruct x; cbn in *. congruence.
    + done.
    + by intros (?&?&_).
  - split; [intros Hq; by exists x|].
    intros (u&->&?&?&?&?). destruct x, u; cbn in *. congruence.
Qed.

Lemma Inv_join s r room p :
  Inv s → rooms s !! r = Some room → is_Some (heap s !! p) →
  Inv (set_rooms (<[r := room ++ [p]]> (rooms s)) (setRoomOf p r s)).
Proof.
  intros [I1 I2 I3 I4 I5 I6] Hr Hp.
  assert (Hsome : ∀ q, is_Some (heap s !! q) → is_Some (heap (setRoomOf p r s) !! q)).
  { intros q. rewrite !lookup_lt_is_Some. cbn. by rewrite length_alter. }
  split.
  - intros name q Hq. destruct (I1 _ _ Hq) as (u&Hu&Hn).
    destruct (Hsome q) as [x Hx]; [by eexists|]. exists x. split; [exact Hx|].
    apply lookup_setRoomOf in Hx as (u'&?&?&_). congruence.
  - intros q x (u&Hu&Hn&_)%lookup_setRoomOf. rewrite Hn. by apply I2.
  - intros ws q Hq. apply Hsome. by eapply I3.
  - intros r' l q. cbn [rooms set_rooms]. rewrite lookup_insert. case_decide.
    + intros [= <-]. rewrite elem_of_app, list_elem_of_singleton.
      intros [Hq| ->]; apply Hsome; [by eapply I4|done].
    + intros Hl Hq. apply Hsome. by eapply I4.
  - intros q x (u&Hu&_&_&_&HR)%lookup_setRoomOf Hne.
    cbn [rooms set_rooms]. rewrite HR in *. clear HR. case_decide as Hd.
    + rewrite lookup_insert_eq. eexists; split; [done|].
      rewrite elem_of_app, list_elem_of_singleton. by right.
    + destruct (I5 _ _ Hu Hne) as (l&Hl&Hq).
      rewrite lookup_insert. case_decide as Hd'.
      * eexists; split; [done|]. rewrite elem_of_app. left.
        rewrite <- Hd' in Hl. congruence.
      * by exists l.
  - intros q x (u&Hu&_&_&Hc&_)%lookup_setRoomOf. rewrite Hc. by eapply I6.
Qed.

Lemma elem_of_delete_other {A} (l : list A) j x y :
  x ∈ l → l !! j = Some y → x ≠ y → x ∈ delete j l.
Proof.
  intros [i Hi]%list_elem_of_lookup Hj Hne.
  apply list_elem_of_lookup.
  destruct (decide (i < j)).
  - exists i. by rewrite list_lookup_delete_lt.
  - assert (i ≠ j) by (intros ->; congruence).
    exists (pred i). rewrite list_lookup_delete_ge by lia.
    replace (S (pred i)) with i by lia. done.
Qed.

(** Leaving: [keep] is the member list the loop stored, the old list with
    at most one entry of the leaver dropped. *)
Lemma Inv_leave s p u room keep :
  Inv s → heap s !! p = Some u → rooms s !! Room u = Some room →
  (∀ q, q ∈ keep → q ∈ room) →
  (∀ q, q ∈ room → q ≠ p → q ∈ keep) →
  Inv (setRoomOf p "" (set_rooms (<[Room u := keep]> (rooms s)) s)).
Proof.
  intros [I1 I2 I3 I4 I5 I6] Hp Hr Hsub Hkeep.
  set (s1 := set_rooms (<[Room u := keep]> (rooms s)) s).
  assert (Hsome : ∀ q, is_Some (heap s !! q) → is_Some (heap (setRoomOf p "" s1) !! q)).
  { intros q. rewrite !lookup_lt_is_Some. cbn. by rewrite length_alter. }
  split.
  - intros name q Hq. destruct (I1 _ _ Hq) as (u'&Hu&Hn).
    destruct (Hsome q) as [x Hx]; [by eexists|]. exists x. split; [exact Hx|].
    apply lookup_setRoomOf in Hx as (u''&Hu''&?&_). cbn in Hu''. congruence.
  - intros q x (u'&Hu&Hn&_)%lookup_setRoomOf. rewrite Hn. by apply I2.
  - intros ws q Hq. apply Hsome. by eapply I3.
  - intros r' l q. cbn [rooms setRoomOf set_heap s1 set_rooms].
    rewrite lookup_insert. case_decide.
    + intros [= <-] Hq. apply Hsome. eapply I4; eauto.
    + intros Hl Hq. apply Hsome. eapply I4; eauto.
  - intros q x (u'&Hu&_&_&_&HR)%lookup_setRoomOf Hne. cbn in Hu.
    rewrite HR in *. clear HR. case_decide as Hd; [done|].
    destruct (I5 _ _ Hu Hne) as (l&Hl&Hq). cbn.
    rewrite lookup_insert. case_decide as Heq.
    + eexists; split; [done|]. apply Hkeep; [|congruence].
      rewrite Heq in Hr. congruence.
    + by exists l.
  - intros q x (u'&Hu&_&_&Hc&_)%lookup_setRoomOf. rewrite Hc. by eapply I6.
Qed.

Lemma Inv_leave_none s p u :
  Inv s → heap s !! p = Some u → Inv (setRoomOf p "" s).
Proof.
  intros HI Hp.
  destruct (rooms s !! Room u) as [room|] eqn:Hr.
  - pose proof (Inv_leave s p u room room HI Hp Hr) as H.
    rewrite insert_id in H by done. destruct s; apply H; auto.
  - destruct HI as [I1 I2 I3 I4 I5 I6].
    assert (HRu : Room u = "").
    { destruct (decide (Room u = "")) as [|Hne]; [done|].
      destruct (I5 _ _ Hp Hne) as (l&Hl&_). congruence. }
    replace (setRoomOf p "" s) with s; [by split|].
    destruct s; unfold setRoomOf, set_heap; cbn in *. f_equal.
    apply list_eq; intros i. rewrite list_lookup_alter.
    case_decide; subst; [|done]. rewrite Hp; cbn. destruct u; cbn in *. by subst.
Qed.

Lemma fan_frame_Inv s s' : Inv s → fan_frame s s' → Inv s'.
Proof. intros HI (Hh&Hu&Hr&_&_&_&_&Hc&_). eapply Inv_unbind; eauto. Qed.

Lemma handleSignup_Inv ws msg s : Inv s → Inv (final (handleSignup ws msg s)).
Proof.
  intros HI. rewrite handleSignup_eq; cbn [final].
  destruct (users s !! Sender msg) eqn:E; [same_regs|].
  eapply Inv_unbind; [by apply (Inv_signup s (Sender msg) (Content msg))|reflexivity..|done].
Qed.

Lemma handleSignin_Inv ws msg s : Inv s → Inv (final (handleSignin ws msg s)).
Proof.
  intros HI. rewrite handleSignin_eq.
  destruct (users s !! Sender msg) as [p|] eqn:E; [|same_regs].
  destruct (heap s !! p) as [u|]; [|done].
  case_bool_decide; cbn [final]; [|same_regs].
  eapply Inv_unbind; [by apply (Inv_signin s ws (Sender msg) p)|reflexivity..|done].
Qed.

Lemma handleSignout_Inv ws s : Inv s → Inv (final (handleSignout ws s)).
Proof.
  intros HI. rewrite handleSignout_eq.
  eapply Inv_unbind; [exact HI|reflexivity..|apply delete_subseteq].
Qed.

Lemma handleCreateRoom_Inv ws msg s : Inv s → Inv (final (handleCreateRoom ws msg s)).
Proof.
  intros HI. rewrite handleCreateRoom_eq; cbn [final].
  destruct (rooms s !! Content msg) eqn:E; [same_regs|].
  eapply Inv_unbind; [by apply (Inv_create s (Content msg))|reflexivity..|done].
Qed.

Lemma handleJoinRoom_Inv ws msg s : Inv s → Inv (final (handleJoinRoom ws msg s)).
Proof.
  intros HI. rewrite handleJoinRoom_eq.
  destruct (rooms s !! Content msg) as [room|] eqn:E; [|same_regs].
  destruct (clients s !! ws) as [p|]; [|done].
  destruct (heap s !! p) as [u|] eqn:Hp; [|done]. cbn [final].
  eapply Inv_unbind;
    [apply (Inv_join s (Content msg) room p HI E); by eexists|reflexivity..|done].
Qed.

Lemma handleLeaveRoom_Inv ws msg s : Inv s → Inv (final (handleLeaveRoom ws msg s)).
Proof.
  intros HI. rewrite handleLeaveRoom_eq.
  destruct (clients s !! ws) as [p|]; [|done].
  destruct (heap s !! p) as [u|] eqn:Hp; [|done].
  destruct (rooms s !! Room u) as [room|] eqn:Hr; [|same_regs].
  destruct (leaveLoop_cases (Room u) (Username u) room 0 room s)
    as [H|[H|(j&q&u'&Hj&Hq&Hn&H)]]; rewrite H; cbn [final]; [| done |].
  - eapply Inv_unbind; [by apply (Inv_leave_none s p u)|reflexivity..|done].
  - cbn [Nat.add]. rewrite <- delete_take_drop.
    eapply Inv_unbind;
      [apply (Inv_leave s p u room (delete j room) HI Hp Hr)|reflexivity..|done].
    + intros q'. apply list_elem_of_delete_inv.
    + intros q' Hq' Hne. eapply elem_of_delete_other; [done|exact Hj|].
      assert (q = p); [|congruence].
      pose proof (inv_heap s HI _ _ Hq) as E1.
      pose proof (inv_heap s HI _ _ Hp) as E2. congruence.
Qed.

Lemma saveMessageToFile_ret msg s :
  ∃ s', saveMessageToFile msg s = Ret tt s' ∧
        heap s' = heap s ∧ users s' = users s ∧ rooms s' = rooms s ∧
        clients s' = clients s ∧ trace s' = trace s ∧ closed s' = closed s.
Proof.
  unfold saveMessageToFile; unmonad. eexists; split; [reflexivity|].
  case_bool_decide; done.
Qed.

Lemma handleChat_Inv ws msg s : Inv s → Inv (final (handleChat ws msg s)).
Proof.
  intros HI. rewrite handleChat_eq.
  destruct (clients s !! ws) as [p|]; [|done].
  destruct (heap s !! p) as [u|]; [|done].
  case_bool_decide; [same_regs|].
  pose proof (fanout_frame true (withRoom msg (Room u))
                (default [] (rooms s !! Room u)) s) as Hf.
  apply (fan_frame_Inv _ _ HI) in Hf.
  destruct (fanout _ _ _ _) as [[] s1|s1]; cbn [final] in *; [|done].
  destruct (saveMessageToFile_ret (withRoom msg (Room u)) s1)
    as (s2&->&Hh&Hu&Hr&Hc&_). cbn [final].
  eapply Inv_unbind; [exact Hf|done..|by rewrite Hc].
Qed.

Lemma handleMessages_Inv msg s : Inv s → Inv (final (handleMessages msg s)).
Proof.
  intros HI. unfold handleMessages; unmonad.
  pose proof (fanout_frame false msg (default [] (rooms s !! MsgRoom msg)) s) as Hf.
  apply (fan_frame_Inv _ _ HI) in Hf.
  destruct (fanout _ _ _ _) as [[] s1|s1]; cbn [final] in *; [|done].
  destruct (saveMessageToFile_ret msg s1) as (s2&->&Hh&Hu&Hr&Hc&_). cbn [final].
  eapply Inv_unbind; [exact Hf|done..|by rewrite Hc].
Qed.

Lemma dispatch_Inv ws msg s : Inv s → Inv (final (dispatch ws msg s)).
Proof.
  intros HI. unfold dispatch.
  repeat case_match;
    auto using handleSignup_Inv, handleSignin_Inv, handleSignout_Inv,
      handleCreateRoom_Inv, handleJoinRoom_Inv, handleLeaveRoom_Inv, handleChat_Inv.
Qed.

Lemma step_Inv s e s' : Inv s → step s e = Some s' → Inv s'.
Proof.
  intros HI. destruct e as [ws msg|ws|ws|text|]; cbn [step]; intros H; [| | | |done].
  - pose proof (dispatch_Inv ws msg s HI) as Hd.
    repeat case_match; simplify_eq; try done.
    + eapply Inv_unbind; [exact HI|reflexivity..|apply delete_subseteq].
    + eapply Inv_unbind; [exact Hd|reflexivity..|done].
  - repeat case_match; simplify_eq; [done|].
    eapply Inv_unbind; [exact HI|reflexivity..|apply delete_subseteq].
  - simplify_eq. same_regs.
  - pose proof (handleMessages_Inv (mkMessage "broadcast" "server" "" text "") s HI) as Hd.
    repeat case_match; simplify_eq; done.
Qed.

Lemma reachable_Inv s : reachable s → Inv s.
Proof.
  induction 1 as [fs na|s e s' _ IH Hstep]; [apply Inv_boot|].
  eapply step_Inv; eauto.
Qed.

Lemma run_reachable es : ∀ s s', reachable s → run s es = Some s' → reachable s'.
Proof.
  induction es as [|e es IH]; intros s s' Hs H; cbn in H; [by simplify_eq|].
  destruct (step s e) as [s1|] eqn:E; [|done].
  eapply IH; [|exact H]. eapply reach_step; eauto.
Qed.

(** ** The connection handle of a session (C2, C1, C7) *)

(** No handler assigns [Conn]: in a reachable state the session bound to a
    connection has a nil handle. *)
Lemma reachable_Conn_nil s ws p :
  reachable s → clients s !! ws = Some p →
  ∃ u, heap s !! p = Some u ∧ Conn u = None.
Proof.
  intros HI%reachable_Inv Hp.
  destruct (inv_clients s HI _ _ Hp) as [u Hu].
  exists u. split; [done|]. by eapply inv_conn.
Qed.

(** C2 (the code departs from it). After sign-up and sign-in on connection
    1 the Connection Registry binds 1 to alice's [User], whose [Conn] is
    nil and not 1: [handleSignin] stores [clients[ws] = user] and never
    [user.Conn = ws]. *)
Theorem signin_leaves_Conn_nil :
  ∃ s, run init alice_online = Some s ∧
       clients s !! 1 = Some 0 ∧
       heap s !! 0 = Some (mkUser "alice" "pw1" None "") ∧
       ¬ bound_to_self s.
Proof.
  eexists. split; [vm_compute; reflexivity|].
  split; [reflexivity|]. split; [reflexivity|].
  intros H. destruct (H 1 0) as (u&Hu&Hc); [reflexivity|].
  vm_compute in Hu. by simplify_eq.
Qed.

(** C1 (the code departs from it). With a, b, c in room R, a broadcast
    from a, and likewise a dm from a to b, panics at the first member
    ([u.Conn] is nil) before anything is pushed: the handler leaves the
    state as it was, nobody receives the event, and connection 1 is
    closed by the unwinding reader. *)
Theorem chat_to_three_members_panics :
  ∃ s, run init three_in_room = Some s ∧
       rooms s !! "R" = Some [0; 1; 2] ∧
       usernameOf s <$> [0; 1; 2] = [Some "a"; Some "b"; Some "c"] ∧
       handleChat 1 (broadcastMsg "a" "hi") s = Panic s ∧
       handleChat 1 (dmMsg "a" "b" "psst") s = Panic s ∧
       step s (Recv 1 (broadcastMsg "a" "hi")) = Some (endConn 1 s) ∧
       (∀ c m, m ∈ received (endConn 1 s) c → MsgType m = "info").
Proof.
  eexists. split; [vm_compute; reflexivity|].
  repeat split; try (vm_compute; reflexivity).
  intros c m. unfold received. rewrite list_elem_of_omap.
  intros (e&He&Hm). vm_compute in He.
  repeat (apply elem_of_cons in He as [->|He]);
    try (cbn in Hm; case_match; by simplify_eq).
  by apply elem_of_nil in He.
Qed.

(** In a reachable state a chat event other than a dm, sent by a session
    that is in a room, always panics: the sender itself is a member, and
    the first member's handle is nil. *)
Lemma chat_panics_when_reachable s ws p u msg :
  reachable s → clients s !! ws = Some p → heap s !! p = Some u →
  Room u ≠ "" → MsgType msg ≠ "dm" →
  handleChat ws msg s = Panic s.
Proof.
  intros HI%reachable_Inv Hp Hu Hroom Hdm.
  rewrite handleChat_eq, Hp, Hu. rewrite bool_decide_eq_false_2 by done.
  destruct (inv_room s HI _ _ Hu Hroom) as (l&Hl&Hin). rewrite Hl. cbn [from_option id].
  destruct l as [|q l]; [by apply elem_of_nil in Hin|].
  destruct (inv_rooms s HI _ _ q Hl) as [uq Hq]; [by left|].
  cbn [fanout]; unmonad. rewrite Hq.
  unfold selected. cbn [MsgType withRoom].
  rewrite (bool_decide_eq_false_2 (MsgType msg = "dm")) by done. cbn.
  unfold pushTo; unmonad. by rewrite (inv_conn s HI _ _ Hq).
Qed.

(** C7 (the code departs from it). With a, b, c in room R and the peer
    of b's connection 2 gone, a broadcast from a panics at the first
    member: connection 2 is neither closed nor unbound, and c receives
    nothing. *)
Theorem fanout_with_dead_recipient_panics :
  ∃ s, run init (three_in_room ++ [NetDown 2]) = Some s ∧
       alive s 2 = false ∧
       handleChat 1 (broadcastMsg "a" "hi") s = Panic s ∧
       clients s !! 2 = Some 1 ∧ (2 ∉ closed s) ∧
       rooms s !! "R" = Some [0; 1; 2] ∧
       (∀ s', step s (Recv 1 (broadcastMsg "a" "hi")) = Some s' →
          clients s' !! 2 = Some 1 ∧ (2 ∉ closed s') ∧ (1 ∈ closed s') ∧
          trace s' = trace s).
Proof.
  eexists. split; [vm_compute; reflexivity|].
  split; [vm_compute; reflexivity|].
  split; [vm_compute; reflexivity|].
  split; [vm_compute; reflexivity|].
  split; [vm_compute; set_solver|].
  split; [vm_compute; reflexivity|].
  intros s' Hs'. vm_compute in Hs'. simplify_eq.
  split; [vm_compute; reflexivity|].
  split; [vm_compute; set_solver|].
  split; [vm_compute; set_solver|reflexivity].
Qed.

(** ** The delivery set of a chat event (C10) *)

Lemma fanout_heap f msg l s : heap (final (fanout f msg l s)) = heap s.
Proof. by destruct (fanout_frame f msg l s) as (?&_). Qed.

Lemma pushTo_heap c msg s : heap (final (pushTo c msg s)) = heap s.
Proof. by destruct (pushTo_frame c msg s) as (?&_). Qed.

(** The guarded loop is the unguarded loop over the delivery set. *)
Lemma fanout_deliverySet msg l s :
  fanout true msg l s = fanout false msg (deliverySet (heap s) msg l) s.
Proof.
  revert s; induction l as [|q l IH]; intros s; [reflexivity|].
  unfold deliverySet. rewrite filter_cons. fold (deliverySet (heap s) msg l).
  destruct (heap s !! q) as [u|] eqn:Hq.
  - destruct (selected msg (Username u)) eqn:Hsel.
    + rewrite decide_True by (unfold chosen; by rewrite Hq).
      cbn [fanout]; unmonad. rewrite Hq, Hsel. cbn [negb andb].
      pose proof (pushTo_heap (Conn u) msg s) as Hh.
      destruct (pushTo (Conn u) msg s) as [[] s1|s1]; [|reflexivity].
      cbn [final] in Hh. rewrite IH, Hh. reflexivity.
    + rewrite decide_False by (unfold chosen; by rewrite Hq, Hsel).
      cbn [fanout]; unmonad. rewrite Hq, Hsel. cbn [negb andb]. apply IH.
  - rewrite decide_True by (unfold chosen; by rewrite Hq).
    cbn [fanout]; unmonad. by rewrite Hq.
Qed.

(** ** Lines of a history log *)

Lemma append_nil_l (b : string) : "" +:+ b = b.
Proof. reflexivity. Qed.

Lemma append_cons c (a b : string) : String c a +:+ b = String c (a +:+ b).
Proof. reflexivity. Qed.

Lemma append_nil_r (a : string) : a +:+ "" = a.
Proof.
  induction a as [|c a IH]; [done|]. by rewrite append_cons, IH.
Qed.

Lemma append_assoc (a b c : string) : (a +:+ b) +:+ c = a +:+ b +:+ c.
Proof.
  induction a as [|x a IH]; [done|]. by rewrite !append_cons, IH.
Qed.

Lemma length_append (a b : string) :
  String.length (a +:+ b) = String.length a + String.length b.
Proof.
  induction a as [|x a IH]; [done|]. rewrite append_cons. cbn. by rewrite IH.
Qed.

Lemma contains_append c a b : contains c (a +:+ b) = contains c a || contains c b.
Proof.
  induction a as [|x a IH]; [done|].
  rewrite append_cons. cbn. by rewrite IH, orb_assoc.
Qed.

Lemma unlines_app ls1 ls2 : unlines (ls1 ++ ls2) = unlines ls1 +:+ unlines ls2.
Proof.
  induction ls1 as [|l ls1 IH]; [done|].
  cbn [unlines app]. rewrite IH, append_assoc, append_cons. reflexivity.
Qed.

Lemma scanFrom_line acc l rest :
  contains LF l = false →
  scanFrom acc (l +:+ String LF rest) =
  if fits (acc +:+ l) then dropCR (acc +:+ l) :: scanFrom "" rest else [].
Proof.
  revert acc; induction l as [|c l IH]; intros acc Hl.
  - rewrite append_nil_l, append_nil_r. cbn [scanFrom].
    by rewrite bool_decide_eq_true_2 by done.
  - cbn in Hl. apply orb_false_elim in Hl as [Hc Hl].
    rewrite append_cons. cbn [scanFrom]. rewrite Hc, IH by done.
    rewrite append_assoc, append_cons, append_nil_l. reflexivity.
Qed.

Lemma scanLines_unlines ls :
  Forall plainLine ls → scanLines (unlines ls) = ls.
Proof.
  unfold scanLines. induction 1 as [|l ls (HLF&HCR&Hfit) _ IH]; [reflexivity|].
  cbn [unlines]. rewrite scanFrom_line by done. rewrite append_nil_l.
  by rewrite Hfit, HCR, IH.
Qed.

(** ** Replay on join (C5) *)

(** The replay in terms of what the scanner reads. When a bound session
    joins an existing room, the handler returns
    and the only writes it makes are, in this order: one [history] event
    per line the scanner reads from the room's log, first line first, and
    then the [info] event [Joined room successfully]; all of them go to
    the joining connection. When the log holds the line-feed-terminated
    lines [ls] (each a plain line), the replayed lines are exactly [ls]. *)
Theorem join_replays_history
    (s : State) (ws : conn) (msg : Message) (room : list ptr) (p : ptr) (u : User) :
  rooms s !! Content msg = Some room →
  clients s !! ws = Some p → heap s !! p = Some u →
  ∃ s', handleJoinRoom ws msg s = Ret tt s' ∧
        emitted s s' =
          map (fun l => Push ws (reply "history" l) (alive s ws))
              (historyLines s (Content msg))
          ++ [Push ws (reply "info" "Joined room successfully") (alive s ws)] ∧
        (∀ c m ok, Push c m ok ∈ emitted s s' → c = ws) ∧
        (∀ ls, Forall plainLine ls →
               historyPath (Content msg) ∉ noaccess s →
               files s !! historyPath (Content msg) = Some (unlines ls) →
               historyLines s (Content msg) = ls).
Proof.
  intros Hr Hp Hu. rewrite handleJoinRoom_eq, Hr, Hp, Hu.
  eexists; split; [reflexivity|].
  assert (He : emitted s
      (say ws (reply "info" "Joined room successfully")
         (replayed ws (historyLines s (Content msg))
            (set_rooms (<[Content msg:=room ++ [p]]> (rooms s))
               (setRoomOf p (Content msg) s)))) =
      map (fun l => Push ws (reply "history" l) (alive s ws))
          (historyLines s (Content msg))
      ++ [Push ws (reply "info" "Joined room successfully") (alive s ws)]).
  { unfold emitted. cbn [trace say replayed set_trace set_rooms setRoomOf set_heap].
    rewrite <- app_assoc, drop_app_length. reflexivity. }
  split; [exact He|]. split.
  - intros c m ok. rewrite He, elem_of_app, list_elem_of_fmap, list_elem_of_singleton.
    intros [(l&Hl&_)|Hl]; congruence.
  - intros ls Hls Hna Hf. unfold historyLines.
    rewrite bool_decide_eq_false_2 by done. rewrite Hf.
    by apply scanLines_unlines.
Qed.

Lemma join_replays_history_witness :
  ∃ s', handleJoinRoom 1 (joinRoomMsg "lobby") restarted = Ret tt s' ∧
        emitted restarted s' =
          [Push 1 (reply "history" "[lobby] bob: hello") true;
           Push 1 (reply "history" "[lobby] bob: bye") true;
           Push 1 (reply "info" "Joined room successfully") true].
Proof.
  destruct (join_replays_history restarted 1 (joinRoomMsg "lobby") [] 0
              (mkUser "alice" "pw1" None ""))
    as (s'&H1&H2&_); [vm_compute; reflexivity..|].
  exists s'. split; [exact H1|]. rewrite H2. vm_compute. reflexivity.
Defined.

(** ** Round trip through the history log (C8) *)

Lemma historyLines_logOf s room :
  historyPath room ∉ noaccess s →
  historyLines s room = scanLines (logOf s room).
Proof.
  intros Hna. unfold historyLines, logOf.
  rewrite bool_decide_eq_false_2 by done.
  by destruct (files s !! historyPath room).
Qed.

Lemma appendAll_log room msgs : ∀ s,
  historyPath room ∉ noaccess s →
  Forall (fun m => MsgRoom m = room) msgs →
  let s1 := final (appendAll msgs s) in
  logOf s1 room = logOf s room +:+ unlines (map formatLine msgs) ∧
  noaccess s1 = noaccess s ∧ trace s1 = trace s ∧
  down s1 = down s ∧ closed s1 = closed s.
Proof.
  induction msgs as [|m msgs IH]; intros s Hna Hall; cbn zeta.
  - cbn. by rewrite append_nil_r.
  - apply Forall_cons in Hall as [Hm Hall].
    set (s' := set_files (<[historyPath room :=
                 default "" (files s !! historyPath room) +:+ formatRecord m]>
                 (files s)) s).
    assert (Hsave : saveMessageToFile m s = Ret tt s').
    { unfold saveMessageToFile; unmonad.
      by rewrite Hm, bool_decide_eq_false_2 by done. }
    cbn [appendAll]. unfold bind. rewrite Hsave.
    destruct (IH s') as (Hl&Hn&Ht&Hd&Hc); [done|done|].
    rewrite Hl, Hn, Ht, Hd, Hc. repeat split; try done.
    unfold logOf at 1. subst s'. cbn [files set_files].
    rewrite lookup_insert_eq. cbn [default from_option id map unlines].
    fold (logOf s room). unfold formatRecord.
    rewrite !append_assoc, append_cons, append_nil_l. reflexivity.
Qed.

Lemma dropCR_cons_ne c b : c ≠ CR → dropCR (String c b) = String c (dropCR b).
Proof.
  intros Hc. destruct b; cbn; [|done]. by rewrite bool_decide_eq_false_2.
Qed.

Lemma dropCR_append a c b : dropCR (a +:+ String c b) = a +:+ dropCR (String c b).
Proof.
  induction a as [|x a IH]; [done|].
  rewrite !append_cons, <- IH.
  destruct a; [rewrite append_nil_l|rewrite append_cons]; reflexivity.
Qed.

Lemma plainRecord_line m : plainRecord m → plainLine (formatLine m).
Proof.
  intros (Hr&Hs&Hc&Hcr&Hfit). split; [|split; [|done]].
  - unfold formatLine. rewrite !contains_append, Hr, Hs, Hc. reflexivity.
  - unfold formatLine.
    replace ("[" +:+ MsgRoom m +:+ "] " +:+ Sender m +:+ ": " +:+ Content m)
      with (("[" +:+ MsgRoom m +:+ "] " +:+ Sender m +:+ ":") +:+
            String (Ascii.ascii_of_nat 32) (Content m))
      by (rewrite !append_assoc; reflexivity).
    rewrite dropCR_append, dropCR_cons_ne by done. by rewrite Hcr.
Qed.

Lemma sendChatHistory_emitted ws room s :
  emitted s (final (sendChatHistory ws room s)) =
  map (fun l => Push ws (reply "history" l) (alive s ws)) (historyLines s room).
Proof.
  unfold sendChatHistory; unmonad. rewrite replayLines_eq.
  unfold emitted, replayed; cbn. by rewrite drop_app_length.
Qed.

(** Appends after a log of plain lines: the replay yields the old lines
    and then one line per record. *)
Lemma replay_after_appends s ws room prior msgs :
  historyPath room ∉ noaccess s →
  logOf s room = unlines prior → Forall plainLine prior →
  Forall (fun m => MsgRoom m = room ∧ plainRecord m) msgs →
  let s1 := final (appendAll msgs s) in
  emitted s1 (final (sendChatHistory ws room s1)) =
  map (fun l => Push ws (reply "history" l) (alive s1 ws))
      (prior ++ map formatLine msgs).
Proof.
  intros Hna Hlog Hprior Hmsgs s1.
  destruct (appendAll_log room msgs s Hna) as (Hl&Hn&_).
  { eapply Forall_impl; [exact Hmsgs|]. by intros m [? _]. }
  fold s1 in Hl, Hn.
  rewrite sendChatHistory_emitted, historyLines_logOf by (by rewrite Hn).
  rewrite Hl, Hlog, <- unlines_app, scanLines_unlines; [done|].
  apply Forall_app; split; [done|].
  apply Forall_fmap. eapply Forall_impl; [exact Hmsgs|].
  intros m [_ Hm]. by apply plainRecord_line.
Qed.

(** C8 as stated fails: one record with a line feed in its content is
    replayed as two lines. *)
Lemma roundtrip_breaks_on_line_feed :
  historyLines (final (appendAll [two_line_record] init)) "lobby" =
    ["[lobby] alice: a"; "b"] ∧
  ¬ roundtrip init 1 "lobby" [two_line_record].
Proof.
  split; [vm_compute; reflexivity|].
  unfold roundtrip. cbn zeta. rewrite sendChatHistory_emitted.
  intros H. apply (f_equal length) in H. vm_compute in H. discriminate.
Qed.

(** C8, amended. Starting from an empty (or absent) log that can be
    opened, after appending records of room lobby whose room, sender and
    content hold no line feed, whose content does not end in a carriage
    return and whose line fits the scanner's buffer, the replay of lobby
    carries exactly one line [[lobby] sender: content] per record, in
    append order. *)
Theorem roundtrip_plain_records (s : State) (ws : conn) (msgs : list Message) :
  historyPath "lobby" ∉ noaccess s →
  logOf s "lobby" = "" →
  Forall (fun m => MsgRoom m = "lobby" ∧ plainRecord m) msgs →
  roundtrip s ws "lobby" msgs.
Proof.
  intros Hna Hlog Hmsgs. unfold roundtrip.
  rewrite (replay_after_appends s ws "lobby" [] msgs) by done.
  cbn [app]. by rewrite <- list_fmap_compose.
Qed.

Lemma roundtrip_plain_records_witness :
  historyLines (final (appendAll two_records init)) "lobby" =
    ["[lobby] alice: hi"; "[lobby] bob: yo"] ∧
  roundtrip init 1 "lobby" two_records.
Proof.
  split; [vm_compute; reflexivity|].
  apply roundtrip_plain_records.
  - vm_compute. set_solver.
  - reflexivity.
  - repeat constructor; vm_compute; reflexivity.
Defined.

(** ** Leaving when in no room (C4) *)

(** When no room has the empty name, a session whose [Room] is empty gets
    the error [You are not in a room] and nothing else changes. *)
Lemma leave_outside_any_room s ws msg p u :
  clients s !! ws = Some p → heap s !! p = Some u → Room u = "" →
  rooms s !! "" = None →
  handleLeaveRoom ws msg s =
  Ret tt (say ws (reply "error" "You are not in a room") s).
Proof.
  intros Hp Hu Hr Hnone. by rewrite handleLeaveRoom_eq, Hp, Hu, Hr, Hnone.
Qed.

(** C4 (the code departs from it). [handleLeaveRoom] takes "in no room" to
    be "[rooms] has no entry for [user.Room]"; once a room with the empty
    name exists, a session that is in no room is answered
    [Left room successfully] instead of the error. *)
Theorem leave_outside_room_reports_success :
  ∃ s, run init nameless_room = Some s ∧
       clients s !! 1 = Some 0 ∧ Room <$> heap s !! 0 = Some "" ∧
       handleLeaveRoom 1 leaveRoomMsg s =
         Ret tt (say 1 (reply "info" "Left room successfully") s) ∧
       handleChat 1 (broadcastMsg "alice" "hi") s =
         Ret tt (say 1 (reply "error" "You are not in a room") s).
Proof.
  eexists. split; [vm_compute; reflexivity|].
  repeat split; vm_compute; reflexivity.
Qed.

(** ** Events from a connection without a session (C6) *)

(** C6 as stated fails: on a fresh server a connection that never signed
    in is answered [info] events for signout and for create_room, and the
    room is created. *)
Lemma unbound_signout_and_create_succeed :
  clients init !! 1 = None ∧
  emitted init (final (dispatch 1 signoutMsg init)) =
    [Push 1 (reply "info" "Signout successful") true] ∧
  emitted init (final (dispatch 1 (createRoomMsg "lobby") init)) =
    [Push 1 (reply "info" "Room created successfully") true] ∧
  rooms (final (dispatch 1 (createRoomMsg "lobby") init)) !! "lobby" = Some [] ∧
  ¬ routing_error init 1 signoutMsg ∧
  ¬ routing_error init 1 (createRoomMsg "lobby").
Proof.
  repeat split; try (vm_compute; reflexivity).
  - intros (text&ok&H). vm_compute in H. discriminate.
  - intros (text&ok&H). vm_compute in H. discriminate.
Qed.

Lemma set_clients_id s : set_clients (clients s) s = s.
Proof. by destruct s. Qed.

Lemma dispatch_signout ws msg :
  MsgType msg = "signout" → dispatch ws msg = handleSignout ws.
Proof. intros Ht. unfold dispatch. by rewrite Ht. Qed.

Lemma dispatch_create_room ws msg :
  MsgType msg = "create_room" → dispatch ws msg = handleCreateRoom ws msg.
Proof. intros Ht. unfold dispatch. by rewrite Ht. Qed.

Lemma dispatch_join_room ws msg :
  MsgType msg = "join_room" → dispatch ws msg = handleJoinRoom ws msg.
Proof. intros Ht. unfold dispatch. by rewrite Ht. Qed.

(** C6, amended. A connection without a session is not checked for one:
    signout is answered with an [info] event and changes nothing else;
    create_room does what it does for any connection (the room is created
    and [info] is sent, or the error [Room already exists] is sent);
    join_room of a room that does not exist is answered with the error
    [Room does not exist] on the originating connection; and no inbound
    event ends the server process. *)
Theorem unbound_connection_events (s : State) (ws : conn) (msg : Message) :
  clients s !! ws = None →
  (MsgType msg = "signout" →
     dispatch ws msg s = Ret tt (say ws (reply "info" "Signout successful") s)) ∧
  (MsgType msg = "create_room" →
     dispatch ws msg s =
     Ret tt match rooms s !! Content msg with
            | Some _ => say ws (reply "error" "Room already exists") s
            | None => say ws (reply "info" "Room created successfully")
                        (set_rooms (<[Content msg := []]> (rooms s)) s)
            end) ∧
  (MsgType msg = "join_room" → rooms s !! Content msg = None →
     dispatch ws msg s = Ret tt (say ws (reply "error" "Room does not exist") s)) ∧
  is_Some (step s (Recv ws msg)).
Proof.
  intros Hnone. repeat split.
  - intros Ht. rewrite dispatch_signout by done.
    rewrite handleSignout_eq, delete_id by done. by rewrite set_clients_id.
  - intros Ht. rewrite dispatch_create_room by done. apply handleCreateRoom_eq.
  - intros Ht Hr. rewrite dispatch_join_room by done.
    by rewrite handleJoinRoom_eq, Hr.
  - cbn [step]. repeat case_match; done.
Qed.

Lemma unbound_connection_events_witness :
  dispatch 7 signoutMsg init = Ret tt (say 7 (reply "info" "Signout successful") init) ∧
  dispatch 7 (joinRoomMsg "lobby") init =
    Ret tt (say 7 (reply "error" "Room does not exist") init) ∧
  is_Some (step init (Recv 7 (broadcastMsg "eve" "hi"))).
Proof.
  split; [|split].
  - apply (unbound_connection_events init 7 signoutMsg); reflexivity.
  - apply (unbound_connection_events init 7 (joinRoomMsg "lobby")); reflexivity.
  - apply (unbound_connection_events init 7 (broadcastMsg "eve" "hi")); reflexivity.
Defined.

(** ** Room membership (C3) *)

(** C3 as stated fails: [handleJoinRoom] appends to the new room and leaves
    the old member list alone, so after joining A and then B alice is
    listed in both while her [Room] is B. *)
Lemma member_of_two_rooms :
  ∃ s, run init joins_A_then_B = Some s ∧ reachable s ∧
       rooms s !! "A" = Some [0] ∧ rooms s !! "B" = Some [0] ∧
       Room <$> heap s !! 0 = Some "B" ∧
       ¬ single_room s.
Proof.
  eexists. split; [vm_compute; reflexivity|].
  split; [eapply (run_reachable joins_A_then_B init);
          [apply (reach_boot ∅ ∅)|vm_compute; reflexivity]|].
  repeat split; try (vm_compute; reflexivity).
  intros H. specialize (H 0 "A" [0]).
  vm_compute in H. assert (E : Some "B" = Some "A"); [|discriminate E].
  apply H; [reflexivity|]. by left.
Qed.

(** C3, amended. In every reachable state a session whose [Room] is a
    non-empty name is listed among the members of that room, which exists;
    and when a bound session listed in its current room joins another
    existing room, it is appended to that room's members and its [Room]
    becomes that room, while the member list of the room it came from is
    unchanged and still lists it. *)
Theorem room_membership_reachable (s : State) :
  reachable s →
  (∀ p u, heap s !! p = Some u → Room u ≠ "" →
          ∃ l, rooms s !! Room u = Some l ∧ p ∈ l) ∧
  (∀ ws msg p u la lb,
     clients s !! ws = Some p → heap s !! p = Some u →
     rooms s !! Room u = Some la → p ∈ la →
     rooms s !! Content msg = Some lb → Content msg ≠ Room u →
     ∃ s', handleJoinRoom ws msg s = Ret tt s' ∧
           rooms s' !! Content msg = Some (lb ++ [p]) ∧
           p ∈ lb ++ [p] ∧
           rooms s' !! Room u = Some la ∧
           Room <$> heap s' !! p = Some (Content msg)).
Proof.
  intros HI%reachable_Inv. split; [apply (inv_room s HI)|].
  intros ws msg p u la lb Hp Hu Hla Hin Hlb Hne.
  rewrite handleJoinRoom_eq, Hlb, Hp, Hu.
  eexists; split; [reflexivity|].
  cbn [rooms heap say replayed set_trace set_rooms setRoomOf set_heap].
  rewrite lookup_insert_eq, lookup_insert_ne by done.
  repeat split; try done.
  - rewrite elem_of_app, list_elem_of_singleton. by right.
  - by rewrite list_lookup_alter_eq, Hu.
Qed.

Lemma room_membership_reachable_witness :
  ∃ s, run init alice_in_A = Some s ∧ reachable s ∧
       (∃ l, rooms s !! "A" = Some l ∧ 0 ∈ l) ∧
       ∃ s', handleJoinRoom 1 (joinRoomMsg "B") s = Ret tt s' ∧
             rooms s' !! "B" = Some [0] ∧ rooms s' !! "A" = Some [0].
Proof.
  eexists. split; [vm_compute; reflexivity|].
  match goal with |- reachable ?s ∧ _ =>
    assert (Hs : reachable s)
      by (eapply (run_reachable alice_in_A init);
          [apply (reach_boot ∅ ∅)|vm_compute; reflexivity]);
    pose proof (room_membership_reachable s Hs) as [H1 H2]
  end.
  split; [exact Hs|]. split.
  - apply (H1 0 (mkUser "alice" "pw1" None "A")); [reflexivity|discriminate].
  - destruct (H2 1 (joinRoomMsg "B") 0 (mkUser "alice" "pw1" None "A") [0] [])
      as (s'&E&HB&_&HA&_); try (vm_compute; reflexivity).
    + by left.
    + discriminate.
    + exists s'. split; [exact E|]. split; [exact HB|exact HA].
Defined.

(** ** The fan-out over members that carry a handle

    The lemmas of this section say what the loop of [handleChat] does on a
    state where every member carries a handle: they isolate the defect in
    the missing assignment of [Conn], not in the loop. *)

Lemma pushTo_eq c msg s : pushTo (Some c) msg s = Ret tt (pushed msg s c).
Proof.
  unfold pushTo, pushed, say, unbind; unmonad. by destruct (alive s c).
Qed.

Lemma pushed_regs msg s c :
  heap (pushed msg s c) = heap s ∧ rooms (pushed msg s c) = rooms s ∧
  users (pushed msg s c) = users s ∧ files (pushed msg s c) = files s.
Proof. unfold pushed. by destruct (alive s c). Qed.

Lemma pushed_alive msg s c c' : alive (pushed msg s c) c' = alive s c'.
Proof.
  unfold pushed. destruct (alive s c) eqn:E; [done|].
  unfold alive in *; cbn.
  destruct (decide (c' = c)) as [->|Hne].
  - rewrite E. apply andb_false_iff. right.
    apply bool_decide_eq_false_2. intros Hn. apply Hn.
    apply elem_of_union_l. by apply elem_of_singleton.
  - f_equal. apply bool_decide_ext.
    rewrite not_elem_of_union, not_elem_of_singleton. tauto.
Qed.

Lemma fanout_populated msg l : ∀ cs s,
  Forall2 (fun q c => connOf (heap s) q = Some c) l cs →
  fanout false msg l s = Ret tt (pushedAll msg cs s).
Proof.
  induction l as [|q l IH]; intros cs s Hall.
  - by apply Forall2_nil_inv_l in Hall as ->.
  - apply Forall2_cons_inv_l in Hall as (c&cs'&Hq&Hall&->).
    unfold connOf in Hq. destruct (heap s !! q) as [u|] eqn:Hu; [|done].
    cbn in Hq. cbn [fanout]; unmonad. rewrite Hu. cbn [andb]. rewrite Hq.
    rewrite pushTo_eq. cbn [pushedAll foldl]. apply IH.
    destruct (pushed_regs msg s c) as (->&_). exact Hall.
Qed.

Lemma pushedAll_regs msg cs : ∀ s,
  heap (pushedAll msg cs s) = heap s ∧ rooms (pushedAll msg cs s) = rooms s ∧
  (∀ c, alive (pushedAll msg cs s) c = alive s c) ∧
  trace (pushedAll msg cs s) =
    trace s ++ map (fun c => Push c msg (alive s c)) cs.
Proof.
  induction cs as [|c cs IH]; intros s; cbn [pushedAll foldl map].
  - rewrite app_nil_r. by repeat split.
  - destruct (IH (pushed msg s c)) as (Hh&Hr&Ha&Ht).
    destruct (pushed_regs msg s c) as (Hh'&Hr'&_).
    unfold pushedAll in *. rewrite Hh, Hr, Ht, Hh', Hr'.
    repeat split.
    + intros c'. by rewrite Ha, pushed_alive.
    + rewrite cons_middle, app_assoc. f_equal.
      * unfold pushed, say, unbind. by destruct (alive s c).
      * apply map_ext. intros c'. by rewrite pushed_alive.
Qed.

Lemma pushed_unbound msg s c c' :
  (clients s !! c' = None ∧ c' ∈ closed s) ∨ (c' = c ∧ alive s c = false) →
  clients (pushed msg s c) !! c' = None ∧ c' ∈ closed (pushed msg s c).
Proof.
  unfold pushed. destruct (alive s c) eqn:E; cbn.
  - intros [H|[_ ?]]; [exact H|done].
  - intros [[H1 H2]| [-> _]].
    + split; [|set_solver]. rewrite lookup_delete. by case_decide.
    + split; [apply lookup_delete_eq|set_solver].
Qed.

Lemma pushedAll_unbound msg cs c : ∀ s,
  (clients s !! c = None ∧ c ∈ closed s) ∨ (c ∈ cs ∧ alive s c = false) →
  clients (pushedAll msg cs s) !! c = None ∧ c ∈ closed (pushedAll msg cs s).
Proof.
  induction cs as [|c0 cs IH]; intros s; cbn [pushedAll foldl].
  - intros [H|[Hin _]]; [exact H|by apply elem_of_nil in Hin].
  - intros H. apply IH.
    destruct H as [H|[[->|Hin]%elem_of_cons Hdead]].
    + left. apply pushed_unbound. by left.
    + left. apply pushed_unbound. by right.
    + right. split; [done|]. by rewrite pushed_alive.
Qed.

(** X18. With a handle on every member: the chat handler returns; the member
    lists are untouched; the event is pushed, in member order, to the
    handles of the delivery set and to nobody else, and it goes through
    wherever the connection is alive; a handle whose push fails ends up
    closed and unbound. *)
Lemma chat_over_populated_room s ws p u msg members cs :
  clients s !! ws = Some p → heap s !! p = Some u → Room u ≠ "" →
  rooms s !! Room u = Some members →
  Forall2 (fun q c => connOf (heap s) q = Some c)
          (deliverySet (heap s) (withRoom msg (Room u)) members) cs →
  ∃ s', handleChat ws msg s = Ret tt s' ∧
        rooms s' = rooms s ∧
        emitted s s' = map (fun c => Push c (withRoom msg (Room u)) (alive s c)) cs ∧
        (∀ c, c ∈ cs → alive s c = false →
              clients s' !! c = None ∧ c ∈ closed s').
Proof.
  intros Hp Hu Hroom Hmem Hall.
  rewrite handleChat_eq, Hp, Hu. rewrite bool_decide_eq_false_2 by done.
  rewrite Hmem. cbn [from_option id].
  rewrite fanout_deliverySet, (fanout_populated _ _ cs) by done.
  destruct (saveMessageToFile_ret (withRoom msg (Room u))
              (pushedAll (withRoom msg (Room u)) cs s))
    as (s'&->&_&_&Hr&Hc&Ht&Hcl).
  destruct (pushedAll_regs (withRoom msg (Room u)) cs s) as (_&Hr'&_&Ht').
  exists s'. split; [done|]. split; [congruence|]. split.
  - unfold emitted. rewrite Ht, Ht'. by rewrite drop_app_length.
  - intros c Hin Hdead. rewrite Hc, Hcl. apply pushedAll_unbound. by right.
Qed.

Example chat_with_handles :
  let s := populated_room in
  let hi := withRoom (broadcastMsg "a" "hi") "R" in
  let psst := withRoom (dmMsg "a" "b" "psst") "R" in
  emitted s (final (handleChat 1 (broadcastMsg "a" "hi") s)) =
    [Push 1 hi true; Push 2 hi true; Push 3 hi true] ∧
  emitted s (final (handleChat 1 (dmMsg "a" "b" "psst") s)) =
    [Push 1 psst true; Push 2 psst true] ∧
  let s2 := set_down {[2]} s in
  let s2' := final (handleChat 1 (broadcastMsg "a" "hi") s2) in
  emitted s2 s2' = [Push 1 hi true; Push 2 hi false; Push 3 hi true] ∧
  clients s2' !! 2 = None ∧ 2 ∈ closed s2' ∧
  rooms s2' !! "R" = Some [0; 1; 2].
Proof.
  repeat split; vm_compute; reflexivity.
Qed.

(** * Further properties of the handlers *)

(** ** Leaving a room *)


Lemma removeFirst_app p l1 l2 :
  p ∉ l1 → removeFirst p (l1 ++ p :: l2) = l1 ++ l2.
Proof.
  induction l1 as [|q l1 IH]; intros Hp; cbn.
  - by rewrite decide_True.
  - apply not_elem_of_cons in Hp as [Hne Hp].
    rewrite decide_False by done. by rewrite IH.
Qed.

Lemma set_rooms_id s r room :
  rooms s !! r = Some room → set_rooms (<[r := room]> (rooms s)) s = s.
Proof. intros H. rewrite insert_id by done. by destruct s. Qed.

(** With one [User] per username and every member allocated, the loop of
    [handleLeaveRoom] stores the list without the leaver's first entry. *)
Lemma leaveLoop_removeFirst s key p u room :
  Inv s → heap s !! p = Some u → rooms s !! key = Some room →
  ∀ pre rest, room = pre ++ rest → p ∉ pre →
  leaveLoop key (Username u) room (length pre) rest s =
  Ret tt (set_rooms (<[key := pre ++ removeFirst p rest]> (rooms s)) s).
Proof.
  intros HI Hp Hr pre rest; revert pre.
  induction rest as [|q rest IH]; intros pre Hroom Hpre.
  - cbn [leaveLoop removeFirst]. rewrite app_nil_r in *. subst pre.
    by rewrite set_rooms_id.
  - cbn [leaveLoop]; unmonad.
    destruct (inv_rooms s HI key room q Hr) as [uq Hq].
    { subst room. rewrite elem_of_app. right. by left. }
    rewrite Hq. cbn [removeFirst].
    destruct (decide (q = p)) as [->|Hne].
    + assert (uq = u) as -> by congruence.
      rewrite bool_decide_eq_true_2 by done.
      subst room. rewrite take_app_length.
      rewrite drop_app_ge by lia.
      replace (S (length pre) - length pre) with 1 by lia. reflexivity.
    + rewrite bool_decide_eq_false_2.
      * specialize (IH (pre ++ [q])). rewrite length_app in IH. cbn in IH.
        rewrite Nat.add_1_r in IH. rewrite IH.
        -- by rewrite <- app_assoc.
        -- by rewrite <- app_assoc.
        -- rewrite elem_of_app, list_elem_of_singleton.
           intros [?| ->]; [by apply Hpre|by apply Hne].
      * intros Hn. apply Hne.
        pose proof (inv_heap s HI _ _ Hq) as E1.
        pose proof (inv_heap s HI _ _ Hp) as E2. congruence.
Qed.

Lemma handleLeaveRoom_Inv_eq s ws msg p u room :
  Inv s → clients s !! ws = Some p → heap s !! p = Some u →
  rooms s !! Room u = Some room →
  handleLeaveRoom ws msg s =
  Ret tt (say ws (reply "info" "Left room successfully")
            (setRoomOf p ""
               (set_rooms (<[Room u := removeFirst p room]> (rooms s)) s))).
Proof.
  intros HI Hc Hp Hr. rewrite handleLeaveRoom_eq, Hc, Hp, Hr.
  pose proof (leaveLoop_removeFirst s (Room u) p u room HI Hp Hr [] room) as H.
  cbn [length app] in H. rewrite H; [reflexivity|reflexivity|].
  by intros ?%elem_of_nil.
Qed.



(** ** Joining and leaving compose *)

Lemma handleJoinRoom_bound s ws msg p u room :
  rooms s !! Content msg = Some room → clients s !! ws = Some p →
  heap s !! p = Some u →
  ∃ s1, handleJoinRoom ws msg s = Ret tt s1 ∧
        clients s1 = clients s ∧
        heap s1 !! p = Some (mkUser (Username u) (Password u) (Conn u) (Content msg)) ∧
        rooms s1 = <[Content msg := room ++ [p]]> (rooms s).
Proof.
  intros Hr Hc Hp. rewrite handleJoinRoom_eq, Hr, Hc, Hp.
  eexists; split; [reflexivity|]. repeat split.
  cbn. by rewrite list_lookup_alter_eq, Hp.
Qed.

(** X3. Sessions of one user share the [User] object: when one connection
    of a user joins a room that does not list the user yet, and any
    connection of the same user then leaves, the Room Registry is back to
    what it was and the first connection is answered
    [You are not in a room] on its next chat event. *)
Theorem join_then_leave_restores_rooms
    (s : State) (ws1 ws2 : conn) (p : ptr) (join leave chat : Message)
    (room : list ptr) :
  reachable s → clients s !! ws1 = Some p → clients s !! ws2 = Some p →
  rooms s !! Content join = Some room → p ∉ room →
  let s1 := final (handleJoinRoom ws1 join s) in
  let s2 := final (handleLeaveRoom ws2 leave s1) in
  returned (handleJoinRoom ws1 join s) = true ∧
  returned (handleLeaveRoom ws2 leave s1) = true ∧
  rooms s1 !! Content join = Some (room ++ [p]) ∧
  rooms s2 = rooms s ∧
  handleChat ws1 chat s2 =
    Ret tt (say ws1 (reply "error" "You are not in a room") s2).
Proof.
  intros Hs Hc1 Hc2 Hr Hp s1 s2.
  pose proof (reachable_Inv s Hs) as HI.
  destruct (inv_clients s HI _ _ Hc1) as [u Hu].
  pose proof (handleJoinRoom_Inv ws1 join s HI) as HI1. fold s1 in HI1.
  destruct (handleJoinRoom_bound s ws1 join p u room Hr Hc1 Hu)
    as (s1'&E1&Hcl1&Hh1&Hr1).
  assert (s1 = s1') as Es1 by (unfold s1; by rewrite E1). 
  rewrite E1. cbn [returned]. rewrite <- Es1 in *. clear s1' Es1 E1.
  assert (Hroom1 : rooms s1 !! Content join = Some (room ++ [p])).
  { by rewrite Hr1, lookup_insert_eq. }
  pose proof (handleLeaveRoom_Inv_eq s1 ws2 leave p
                (mkUser (Username u) (Password u) (Conn u) (Content join))
                (room ++ [p]) HI1) as E2.
  rewrite Hcl1 in E2. specialize (E2 Hc2 Hh1 Hroom1). cbn [Room] in E2.
  rewrite removeFirst_app, app_nil_r in E2 by done.
  assert (Hs2 : s2 = say ws2 (reply "info" "Left room successfully")
           (setRoomOf p "" (set_rooms (<[Content join := room]> (rooms s1)) s1))).
  { unfold s2. by rewrite E2. }
  rewrite E2. cbn [returned].
  split; [done|]. split; [done|]. split; [done|]. split.
  - rewrite Hs2. cbn. rewrite Hr1, insert_insert_eq. by apply insert_id.
  - rewrite handleChat_eq.
    assert (clients s2 !! ws1 = Some p) as ->.
    { rewrite Hs2. cbn. by rewrite Hcl1. }
    assert (heap s2 !! p = Some (mkUser (Username u) (Password u) (Conn u) "")) as ->.
    { rewrite Hs2. cbn [heap say set_trace setRoomOf set_heap set_rooms].
      by rewrite list_lookup_alter_eq, Hh1. }
    reflexivity.
Qed.

Lemma join_then_leave_restores_rooms_witness :
  let s := alice_twice_state in
  let s1 := final (handleJoinRoom 1 (joinRoomMsg "lobby") s) in
  let s2 := final (handleLeaveRoom 2 leaveRoomMsg s1) in
  rooms s1 !! "lobby" = Some [0] ∧ rooms s2 = rooms s ∧
  handleChat 1 (broadcastMsg "alice" "hi") s2 =
    Ret tt (say 1 (reply "error" "You are not in a room") s2).
Proof.
  assert (Hs : reachable alice_twice_state).
  { eapply (run_reachable alice_twice init);
      [apply (reach_boot ∅ ∅)|vm_compute; reflexivity]. }
  destruct (join_then_leave_restores_rooms alice_twice_state 1 2 0
              (joinRoomMsg "lobby") leaveRoomMsg (broadcastMsg "alice" "hi") [] Hs)
    as (_&_&H1&H2&H3); try (vm_compute; reflexivity).
  - by intros ?%elem_of_nil.
  - split; [exact H1|]. split; [exact H2|exact H3].
Defined.

(** X6. Joining twice appends twice, and one leave takes only the first
    entry: after join, join, leave of a room that did not list the user,
    the user is still listed in the room once while its [Room] is empty, so
    it stays a target of the room's fan-out and is told
    [You are not in a room] when it chats. *)
Theorem duplicate_join_leaves_stale_entry
    (s : State) (ws : conn) (p : ptr) (join leave chat : Message) (room : list ptr) :
  reachable s → clients s !! ws = Some p →
  rooms s !! Content join = Some room → p ∉ room →
  let s1 := final (handleJoinRoom ws join s) in
  let s2 := final (handleJoinRoom ws join s1) in
  let s3 := final (handleLeaveRoom ws leave s2) in
  rooms s2 !! Content join = Some (room ++ [p; p]) ∧
  rooms s3 !! Content join = Some (room ++ [p]) ∧
  Room <$> heap s3 !! p = Some "" ∧
  handleChat ws chat s3 =
    Ret tt (say ws (reply "error" "You are not in a room") s3).
Proof.
  intros Hs Hc Hr Hp s1 s2 s3.
  pose proof (reachable_Inv s Hs) as HI.
  destruct (inv_clients s HI _ _ Hc) as [u Hu].
  pose proof (handleJoinRoom_Inv ws join s HI) as HI1. fold s1 in HI1.
  destruct (handleJoinRoom_bound s ws join p u room Hr Hc Hu)
    as (s1'&E1&Hcl1&Hh1&Hr1).
  assert (s1 = s1') as Es1 by (unfold s1; by rewrite E1).
  rewrite <- Es1 in *. clear s1' Es1 E1.
  assert (Hroom1 : rooms s1 !! Content join = Some (room ++ [p])).
  { by rewrite Hr1, lookup_insert_eq. }
  rewrite <- Hcl1 in Hc.
  pose proof (handleJoinRoom_Inv ws join s1 HI1) as HI2. fold s2 in HI2.
  destruct (handleJoinRoom_bound s1 ws join p
              (mkUser (Username u) (Password u) (Conn u) (Content join))
              (room ++ [p]) Hroom1 Hc Hh1)
    as (s2'&E2&Hcl2&Hh2&Hr2).
  assert (s2 = s2') as Es2 by (unfold s2; by rewrite E2).
  rewrite <- Es2 in *. clear s2' Es2 E2. cbn [Username Password Conn] in Hh2.
  assert (Hroom2 : rooms s2 !! Content join = Some (room ++ [p; p])).
  { rewrite Hr2, lookup_insert_eq. by rewrite <- app_assoc. }
  rewrite <- Hcl2 in Hc.
  pose proof (handleLeaveRoom_Inv_eq s2 ws leave p
                (mkUser (Username u) (Password u) (Conn u) (Content join))
                (room ++ [p; p]) HI2 Hc Hh2 Hroom2) as E3.
  cbn [Room] in E3. rewrite removeFirst_app in E3 by done.
  assert (Hs3 : s3 = say ws (reply "info" "Left room successfully")
           (setRoomOf p "" (set_rooms (<[Content join := room ++ [p]]> (rooms s2)) s2))).
  { unfold s3. by rewrite E3. }
  assert (Hh3 : heap s3 !! p = Some (mkUser (Username u) (Password u) (Conn u) "")).
  { rewrite Hs3. cbn [heap say set_trace setRoomOf set_heap set_rooms].
    by rewrite list_lookup_alter_eq, Hh2. }
  split; [done|]. split; [|split].
  - rewrite Hs3. cbn. by rewrite lookup_insert_eq.
  - by rewrite Hh3.
  - rewrite handleChat_eq.
    assert (clients s3 !! ws = Some p) as -> by (rewrite Hs3; exact Hc).
    by rewrite Hh3.
Qed.

Lemma duplicate_join_leaves_stale_entry_witness :
  let s := alice_twice_state in
  let s1 := final (handleJoinRoom 1 (joinRoomMsg "lobby") s) in
  let s2 := final (handleJoinRoom 1 (joinRoomMsg "lobby") s1) in
  let s3 := final (handleLeaveRoom 1 leaveRoomMsg s2) in
  rooms s2 !! "lobby" = Some [0; 0] ∧ rooms s3 !! "lobby" = Some [0] ∧
  Room <$> heap s3 !! 0 = Some "".
Proof.
  assert (Hs : reachable alice_twice_state).
  { eapply (run_reachable alice_twice init);
      [apply (reach_boot ∅ ∅)|vm_compute; reflexivity]. }
  destruct (duplicate_join_leaves_stale_entry alice_twice_state 1 0
              (joinRoomMsg "lobby") leaveRoomMsg (broadcastMsg "alice" "hi") [] Hs)
    as (H1&H2&H3&_); try (vm_compute; reflexivity).
  - by intros ?%elem_of_nil.
  - split; [exact H1|]. split; [exact H2|exact H3].
Defined.

(** ** What the server never undoes *)

Lemma grows_refl s : grows s s.
Proof.
  repeat split; try done.
  intros path d Hd. exists "". by rewrite append_nil_r.
Qed.

Lemma grows_trans s1 s2 s3 : grows s1 s2 → grows s2 s3 → grows s1 s3.
Proof.
  intros (R1&F1&N1&C1&T1) (R2&F2&N2&C2&T2). repeat split.
  - eauto.
  - intros path d Hd. destruct (F1 _ _ Hd) as (d1&Hd1).
    destruct (F2 _ _ Hd1) as (d2&Hd2). exists (d1 +:+ d2).
    by rewrite <- append_assoc.
  - congruence.
  - by etrans.
  - by etrans.
Qed.

Lemma grows_same s s' :
  rooms s' = rooms s → files s' = files s → noaccess s' = noaccess s →
  closed s ⊆ closed s' → trace s `prefix_of` trace s' → grows s s'.
Proof.
  intros Hr Hf Hn Hc Ht. repeat split; rewrite ?Hr, ?Hf; try done.
  intros path d Hd. exists "". by rewrite append_nil_r.
Qed.

Lemma grows_rooms s s' :
  (∀ r, is_Some (rooms s !! r) → is_Some (rooms s' !! r)) →
  files s' = files s → noaccess s' = noaccess s →
  closed s' = closed s → trace s `prefix_of` trace s' → grows s s'.
Proof.
  intros Hr Hf Hn Hc Ht. repeat split; rewrite ?Hf, ?Hc; try done.
  intros path d Hd. exists "". by rewrite append_nil_r.
Qed.

Lemma fan_frame_grows s s' : fan_frame s s' → grows s s'.
Proof.
  intros (_&_&Hr&Hf&Hn&_&_&_&Hc&Ht). by apply grows_same.
Qed.

Lemma saveMessageToFile_grows msg s : grows s (final (saveMessageToFile msg s)).
Proof.
  unfold saveMessageToFile; unmonad; cbn [final].
  case_bool_decide; [apply grows_refl|].
  repeat split; try done. cbn.
  intros path d Hd. rewrite lookup_insert. case_decide as Hpath.
  - subst path. rewrite Hd. cbn. by eexists.
  - exists "". by rewrite append_nil_r.
Qed.

Local Hint Resolve prefix_app_r : core.

Lemma dispatch_grows ws msg s : grows s (final (dispatch ws msg s)).
Proof.
  unfold dispatch. repeat case_match.
  - rewrite handleSignup_eq; cbn [final]. case_match; apply grows_same; cbn; auto.
  - rewrite handleSignin_eq. repeat case_match; cbn [final];
      try apply grows_refl; apply grows_same; cbn; auto.
  - rewrite handleSignout_eq. apply grows_same; cbn; auto.
  - rewrite handleCreateRoom_eq; cbn [final].
    destruct (rooms s !! Content msg) eqn:E; [apply grows_same; cbn; auto|].
    apply grows_rooms; cbn; auto.
    intros r Hr. rewrite lookup_insert_is_Some. destruct (decide (Content msg = r)); auto.
  - rewrite handleJoinRoom_eq.
    destruct (rooms s !! Content msg) eqn:E; [|apply grows_same; cbn; auto].
    repeat case_match; cbn [final]; try apply grows_refl.
    apply grows_rooms; cbn; auto.
    intros r Hr. rewrite lookup_insert_is_Some. destruct (decide (Content msg = r)); auto.
  - rewrite handleLeaveRoom_eq.
    destruct (clients s !! ws) as [p|]; [|apply grows_refl].
    destruct (heap s !! p) as [u|]; [|apply grows_refl].
    destruct (rooms s !! Room u) as [room|] eqn:Hr; [|apply grows_same; cbn; auto].
    destruct (leaveLoop_cases (Room u) (Username u) room 0 room s)
      as [HL|[HL|(j&q&u'&_&_&_&HL)]]; rewrite HL; cbn [final].
    + apply grows_same; cbn; auto.
    + apply grows_refl.
    + apply grows_rooms; cbn; auto.
      intros r Hr'. rewrite lookup_insert_is_Some. destruct (decide (Room u = r)); auto.
  - rewrite handleChat_eq.
    destruct (clients s !! ws) as [p|]; [|apply grows_refl].
    destruct (heap s !! p) as [u|]; [|apply grows_refl].
    destruct (bool_decide (Room u = "")); [apply grows_same; cbn; auto|].
    pose proof (fanout_frame true (withRoom msg (Room u))
                  (default [] (rooms s !! Room u)) s) as Hf.
    apply fan_frame_grows in Hf.
    destruct (fanout _ _ _ _) as [[] s1|s1]; cbn [final] in *; [|done].
    eapply grows_trans; [exact Hf|apply saveMessageToFile_grows].
  - apply grows_refl.
Qed.

Lemma handleMessages_grows msg s : grows s (final (handleMessages msg s)).
Proof.
  unfold handleMessages; unmonad.
  pose proof (fanout_frame false msg (default [] (rooms s !! MsgRoom msg)) s) as Hf.
  apply fan_frame_grows in Hf.
  destruct (fanout _ _ _ _) as [[] s1|s1]; cbn [final] in *; [|done].
  eapply grows_trans; [exact Hf|apply saveMessageToFile_grows].
Qed.

Lemma step_grows s e s' : step s e = Some s' → grows s s'.
Proof.
  destruct e as [ws msg|ws|ws|text|]; cbn [step]; intros H; [| | | |done].
  - pose proof (dispatch_grows ws msg s) as Hd.
    destruct (bool_decide (ws ∈ ended s)); [simplify_eq; apply grows_refl|].
    destruct (bool_decide (ws ∈ closed s)).
    { simplify_eq. apply grows_same; cbn; auto. apply union_subseteq_r. }
    destruct (dispatch ws msg s) as [[] s1|s1]; simplify_eq; cbn [final] in Hd;
      [exact Hd|].
    eapply grows_trans; [exact Hd|]. apply grows_same; cbn; auto.
    apply union_subseteq_r.
  - destruct (bool_decide (ws ∈ ended s)); simplify_eq; [apply grows_refl|].
    apply grows_same; cbn; auto. apply union_subseteq_r.
  - simplify_eq. apply grows_same; cbn; auto.
  - pose proof (handleMessages_grows (mkMessage "broadcast" "server" "" text "") s) as Hd.
    repeat case_match; simplify_eq; [apply grows_refl|exact Hd].
Qed.

Lemma run_grows es : ∀ s s', run s es = Some s' → grows s s'.
Proof.
  induction es as [|e es IH]; intros s s' H; cbn in H.
  - simplify_eq. apply grows_refl.
  - destruct (step s e) as [s1|] eqn:E; [|done].
    eapply grows_trans; [eapply step_grows; exact E|eauto].
Qed.

(** X4. Rooms are never deleted and never re-created: once create_room
    has made a room, then after any further events the room still exists,
    and another create_room of that name, from any connection, is only
    answered by the error [Room already exists], the member list staying
    as it is. *)
Theorem create_room_twice
    (s s2 : State) (ws ws' : conn) (first second : Message) (es : list event) :
  rooms s !! Content first = None →
  Content second = Content first →
  run (final (handleCreateRoom ws first s)) es = Some s2 →
  rooms (final (handleCreateRoom ws first s)) !! Content first = Some [] ∧
  is_Some (rooms s2 !! Content first) ∧
  handleCreateRoom ws' second s2 =
    Ret tt (say ws' (reply "error" "Room already exists") s2).
Proof.
  intros Hfree Hsame Hrun.
  assert (H1 : rooms (final (handleCreateRoom ws first s)) !! Content first = Some []).
  { rewrite handleCreateRoom_eq, Hfree. cbn. apply lookup_insert_eq. }
  destruct (run_grows es _ _ Hrun) as (Hr&_).
  destruct (Hr (Content first)) as [members Hm]; [by rewrite H1|].
  split; [exact H1|]. split; [by eexists|].
  by rewrite handleCreateRoom_eq, Hsame, Hm.
Qed.

Lemma create_room_twice_witness :
  let s1 := final (handleCreateRoom 1 (createRoomMsg "lobby") init) in
  ∃ s2, run s1 (alice_online ++ [Recv 1 (joinRoomMsg "lobby")]) = Some s2 ∧
        rooms s2 !! "lobby" = Some [0] ∧
        handleCreateRoom 2 (createRoomMsg "lobby") s2 =
          Ret tt (say 2 (reply "error" "Room already exists") s2).
Proof.
  intros s1. eexists. split; [vm_compute; reflexivity|].
  split; [vm_compute; reflexivity|].
  refine (proj2 (proj2 (create_room_twice init _ 1 2 (createRoomMsg "lobby")
            (createRoomMsg "lobby") (alice_online ++ [Recv 1 (joinRoomMsg "lobby")])
            _ _ _))); vm_compute; reflexivity.
Defined.

(** X10. History logs are append-only: whatever events the server goes
    through, a log that held the text [d] holds a text that starts with
    [d] afterwards; no file is removed or rewritten. *)
Theorem history_logs_only_grow
    (s s' : State) (es : list event) (path d : string) :
  run s es = Some s' → files s !! path = Some d →
  ∃ d', files s' !! path = Some (d +:+ d').
Proof.
  intros Hrun Hd. destruct (run_grows es _ _ Hrun) as (_&Hf&_). eauto.
Qed.

Lemma history_logs_only_grow_witness :
  ∃ s' d',
    run restarted [Recv 1 (joinRoomMsg "lobby"); Recv 1 (dmMsg "x" "y" "hi")] = Some s' ∧
    files s' !! historyPath "lobby" = Some (lobby_log +:+ d') ∧
    historyLines s' "lobby" =
      ["[lobby] bob: hello"; "[lobby] bob: bye"; "[lobby] x: hi"].
Proof.
  exists after_dm.
  destruct (history_logs_only_grow restarted after_dm
              [Recv 1 (joinRoomMsg "lobby"); Recv 1 (dmMsg "x" "y" "hi")]
              (historyPath "lobby") lobby_log) as (d'&Hd');
    [vm_compute; reflexivity|vm_compute; reflexivity|].
  exists d'. split; [vm_compute; reflexivity|]. split; [exact Hd'|].
  vm_compute. reflexivity.
Defined.

(** ** Signing in and out *)

(** X1. In a reachable state a sign-in whose sender and content are a
    registered username and its stored password binds the connection to
    that user's object (replacing any earlier binding of the connection)
    and is answered [Signin successful]; any other sign-in, for an unknown
    username as for a wrong password, is answered by the same error event
    and changes nothing else. *)
Theorem signin_checks_credential (s : State) (ws : conn) (msg : Message) :
  reachable s →
  (credential s (Sender msg) = Some (Content msg) →
     ∃ p, users s !! Sender msg = Some p ∧
          handleSignin ws msg s =
            Ret tt (say ws (reply "info" "Signin successful")
                      (set_clients (<[ws := p]> (clients s)) s))) ∧
  (credential s (Sender msg) ≠ Some (Content msg) →
     handleSignin ws msg s =
       Ret tt (say ws (reply "error" "Invalid username or password") s)).
Proof.
  intros HI%reachable_Inv. rewrite handleSignin_eq. unfold credential.
  destruct (users s !! Sender msg) as [p|] eqn:Hp.
  - destruct (inv_users s HI _ _ Hp) as (u&Hu&_). rewrite Hu. cbn.
    split.
    + intros [= Hpw]. exists p. split; [done|].
      by rewrite bool_decide_eq_true_2.
    + intros Hpw. rewrite bool_decide_eq_false_2; [done|congruence].
  - split; [done|done].
Qed.

Lemma signin_checks_credential_witness :
  handleSignin 2 (signinMsg "alice" "pw1") alice_online_state =
    Ret tt (say 2 (reply "info" "Signin successful")
              (set_clients (<[2 := 0]> (clients alice_online_state)) alice_online_state)) ∧
  handleSignin 2 (signinMsg "alice" "wrong") alice_online_state =
    Ret tt (say 2 (reply "error" "Invalid username or password") alice_online_state) ∧
  handleSignin 2 (signinMsg "bob" "pw1") alice_online_state =
    Ret tt (say 2 (reply "error" "Invalid username or password") alice_online_state).
Proof.
  assert (Hs : reachable alice_online_state).
  { eapply (run_reachable alice_online init);
      [apply (reach_boot ∅ ∅)|vm_compute; reflexivity]. }
  split; [|split].
  - destruct (proj1 (signin_checks_credential alice_online_state 2
                      (signinMsg "alice" "pw1") Hs)) as (p&Hp&E);
      [vm_compute; reflexivity|].
    vm_compute in Hp. by simplify_eq.
  - apply (signin_checks_credential alice_online_state 2 (signinMsg "alice" "wrong") Hs).
    vm_compute. discriminate.
  - apply (signin_checks_credential alice_online_state 2 (signinMsg "bob" "pw1") Hs).
    vm_compute. discriminate.
Defined.

(** X2. What sign-up stores, sign-in finds: after a sign-up of a free
    username, and after any further events, a sign-in with the same
    username and password on any connection succeeds and binds that
    connection to the [User] the sign-up allocated. *)
Theorem signup_then_signin
    (s s2 : State) (ws ws' : conn) (first msg : Message) (es : list event) :
  users s !! Sender first = None →
  run (final (handleSignup ws first s)) es = Some s2 →
  Sender msg = Sender first → Content msg = Content first →
  handleSignin ws' msg s2 =
    Ret tt (say ws' (reply "info" "Signin successful")
              (set_clients (<[ws' := length (heap s)]> (clients s2)) s2)).
Proof.
  intros Hfree Hrun Hn Hpw.
  destruct (run_stable es _ _ Hrun) as [HU HH].
  assert (Hp : users (final (handleSignup ws first s)) !! Sender first
               = Some (length (heap s))).
  { rewrite handleSignup_eq, Hfree. cbn. apply lookup_insert_eq. }
  assert (Hu : heap (final (handleSignup ws first s)) !! length (heap s)
               = Some (mkUser (Sender first) (Content first) None "")).
  { rewrite handleSignup_eq, Hfree. cbn.
    rewrite lookup_app_r by done. by rewrite Nat.sub_diag. }
  apply HU in Hp. destruct (HH _ _ Hu) as (x'&Hx'&_&Hpw'&_). cbn in Hpw'.
  rewrite handleSignin_eq, Hn, Hp, Hx'.
  rewrite bool_decide_eq_true_2 by congruence. reflexivity.
Qed.

Lemma signup_then_signin_witness :
  let s1 := final (handleSignup 1 (signupMsg "bob" "pw2") room_of_three) in
  ∃ s2, run s1 [Recv 2 leaveRoomMsg; Recv 3 signoutMsg] = Some s2 ∧
        handleSignin 3 (signinMsg "bob" "pw2") s2 =
          Ret tt (say 3 (reply "info" "Signin successful")
                    (set_clients (<[3 := 3]> (clients s2)) s2)).
Proof.
  intros s1. eexists. split; [vm_compute; reflexivity|].
  refine (signup_then_signin room_of_three _ 1 3 (signupMsg "bob" "pw2")
            (signinMsg "bob" "pw2") [Recv 2 leaveRoomMsg; Recv 3 signoutMsg] _ _ _ _);
    vm_compute; reflexivity.
Defined.

(** X19. Signing out does not leave the room: after a bound session signs
    out and the same user signs in again on any connection, that
    connection is bound to the same [User] object, and every [User]
    (with its [Room]) and every member list is as before the sign-out. *)
Theorem room_survives_signout_and_signin
    (s : State) (ws1 ws2 : conn) (p : ptr) (u : User) (msg : Message) :
  reachable s → clients s !! ws1 = Some p → heap s !! p = Some u →
  Sender msg = Username u → Content msg = Password u →
  let s1 := final (handleSignout ws1 s) in
  let s2 := final (handleSignin ws2 msg s1) in
  clients s1 !! ws1 = None ∧ clients s2 !! ws2 = Some p ∧
  heap s2 = heap s ∧ rooms s2 = rooms s.
Proof.
  intros HI%reachable_Inv Hc Hu Hn Hpw s1 s2.
  assert (Hs1 : s1 = say ws1 (reply "info" "Signout successful")
                  (set_clients (delete ws1 (clients s)) s)) by reflexivity.
  assert (Hs2 : s2 = say ws2 (reply "info" "Signin successful")
                  (set_clients (<[ws2 := p]> (clients s1)) s1)).
  { unfold s2. rewrite handleSignin_eq.
    assert (users s1 !! Sender msg = Some p) as ->.
    { rewrite Hs1, Hn. cbn. by apply (inv_heap s HI). }
    assert (heap s1 !! p = Some u) as -> by (rewrite Hs1; exact Hu).
    by rewrite bool_decide_eq_true_2. }
  split; [rewrite Hs1; cbn; apply lookup_delete_eq|].
  rewrite Hs2, Hs1. cbn. by rewrite lookup_insert_eq.
Qed.

Lemma room_survives_signout_and_signin_witness :
  let s1 := final (handleSignout 1 room_of_three) in
  let s2 := final (handleSignin 9 (signinMsg "a" "x") s1) in
  clients s2 !! 1 = None ∧ clients s2 !! 9 = Some 0 ∧
  Room <$> heap s2 !! 0 = Some "R" ∧ rooms s2 !! "R" = Some [0; 1; 2].
Proof.
  assert (Hs : reachable room_of_three).
  { eapply (run_reachable three_in_room init);
      [apply (reach_boot ∅ ∅)|vm_compute; reflexivity]. }
  destruct (room_survives_signout_and_signin room_of_three 1 9 0
              (mkUser "a" "x" None "R") (signinMsg "a" "x") Hs)
    as (_&H2&H3&H4); try (vm_compute; reflexivity).
  split; [vm_compute; reflexivity|]. split; [exact H2|].
  rewrite H3, H4. split; vm_compute; reflexivity.
Defined.

(** ** The registries in a reachable state *)

(** X14. In every reachable state: a username maps to a [User] object of
    that name; the object behind a bound connection and behind a room
    member is the one registered under its own username; and two objects
    never share a username. *)
Theorem registries_consistent (s : State) :
  reachable s →
  (∀ name p, users s !! name = Some p →
     ∃ u, heap s !! p = Some u ∧ Username u = name) ∧
  (∀ ws p, clients s !! ws = Some p →
     ∃ u, heap s !! p = Some u ∧ users s !! Username u = Some p) ∧
  (∀ r l p, rooms s !! r = Some l → p ∈ l →
     ∃ u, heap s !! p = Some u ∧ users s !! Username u = Some p) ∧
  (∀ p q u v, heap s !! p = Some u → heap s !! q = Some v →
     Username u = Username v → p = q).
Proof.
  intros HI%reachable_Inv. repeat split.
  - apply (inv_users s HI).
  - intros ws p Hp. destruct (inv_clients s HI _ _ Hp) as [u Hu].
    exists u. split; [done|]. by apply (inv_heap s HI).
  - intros r l p Hl Hp. destruct (inv_rooms s HI _ _ _ Hl Hp) as [u Hu].
    exists u. split; [done|]. by apply (inv_heap s HI).
  - intros p q u v Hu Hv Hn.
    pose proof (inv_heap s HI _ _ Hu) as E1.
    pose proof (inv_heap s HI _ _ Hv) as E2. congruence.
Qed.

Lemma registries_consistent_witness :
  ∃ u, heap room_of_three !! 1 = Some u ∧
       users room_of_three !! Username u = Some 1.
Proof.
  assert (Hs : reachable room_of_three).
  { eapply (run_reachable three_in_room init);
      [apply (reach_boot ∅ ∅)|vm_compute; reflexivity]. }
  destruct (registries_consistent room_of_three Hs) as (_&H&_).
  apply (H 2 1). vm_compute. reflexivity.
Defined.

Lemma dispatch_rooms_same ws msg s :
  MsgType msg ≠ "create_room" → MsgType msg ≠ "join_room" →
  MsgType msg ≠ "leave_room" →
  rooms (final (dispatch ws msg s)) = rooms s.
Proof.
  intros H1 H2 H3. unfold dispatch.
  rewrite (bool_decide_eq_false_2 _ H1), (bool_decide_eq_false_2 _ H2),
          (bool_decide_eq_false_2 _ H3).
  destruct (bool_decide (MsgType msg = "signup")).
  { rewrite handleSignup_eq; cbn [final]. by case_match. }
  destruct (bool_decide (MsgType msg = "signin")).
  { rewrite handleSignin_eq. by repeat case_match. }
  destruct (bool_decide (MsgType msg = "signout")); [done|].
  destruct (_ || _); [|done].
  rewrite handleChat_eq.
  destruct (clients s !! ws) as [p|]; [|done].
  destruct (heap s !! p) as [u|]; [|done].
  destruct (bool_decide (Room u = "")); [done|].
  destruct (fanout_frame true (withRoom msg (Room u))
              (default [] (rooms s !! Room u)) s) as (_&_&Hr&_).
  destruct (fanout _ _ _ _) as [[] s1|s1]; cbn [final] in *; [|done].
  destruct (saveMessageToFile_ret (withRoom msg (Room u)) s1) as (s2&->&_&_&Hr2&_).
  cbn [final]. congruence.
Qed.

(** X15. The Room Registry changes only on create_room, join_room and
    leave_room events: no sign-up, sign-in, sign-out, chat event, unknown
    event, read error, lost peer or console line alters which rooms exist
    or who is listed in them. *)
Theorem rooms_change_only_on_room_events (s s' : State) (e : event) :
  step s e = Some s' → rooms s' ≠ rooms s →
  ∃ ws msg, e = Recv ws msg ∧
    (MsgType msg = "create_room" ∨ MsgType msg = "join_room" ∨
     MsgType msg = "leave_room").
Proof.
  destruct e as [ws msg|ws|ws|text|]; cbn [step]; intros H Hne; [| | | |done].
  - exists ws, msg. split; [done|].
    destruct (decide (MsgType msg = "create_room")); [by left|].
    destruct (decide (MsgType msg = "join_room")); [by right; left|].
    destruct (decide (MsgType msg = "leave_room")); [by right; right|].
    exfalso. apply Hne.
    pose proof (dispatch_rooms_same ws msg s) as Hd.
    destruct (bool_decide (ws ∈ ended s)); [by simplify_eq|].
    destruct (bool_decide (ws ∈ closed s)); [by simplify_eq|].
    destruct (dispatch ws msg s) as [[] s1|s1]; simplify_eq; cbn [final] in Hd;
      cbn; auto.
  - exfalso. apply Hne. destruct (bool_decide (ws ∈ ended s)); by simplify_eq.
  - exfalso. apply Hne. by simplify_eq.
  - exfalso. apply Hne. destruct (bool_decide (text = "")); [by simplify_eq|].
    unfold handleMessages in H; revert H; unmonad.
    destruct (fanout_frame false (mkMessage "broadcast" "server" "" text "")
                (default [] (rooms s !! "")) s) as (_&_&Hr&_).
    cbn [MsgRoom].
    destruct (fanout _ _ _ _) as [[] s1|s1]; cbn [final] in *; [|done].
    destruct (saveMessageToFile_ret (mkMessage "broadcast" "server" "" text "") s1)
      as (s2&->&_&_&Hr2&_).
    intros [= <-]. congruence.
Qed.

Lemma rooms_change_only_on_room_events_witness :
  ∃ s', step alice_twice_state (Recv 1 (joinRoomMsg "lobby")) = Some s' ∧
        rooms s' !! "lobby" = Some [0] ∧
        ∃ ws msg, Recv 1 (joinRoomMsg "lobby") = Recv ws msg ∧
          (MsgType msg = "create_room" ∨ MsgType msg = "join_room" ∨
           MsgType msg = "leave_room").
Proof.
  eexists. split; [vm_compute; reflexivity|]. split; [vm_compute; reflexivity|].
  eapply (rooms_change_only_on_room_events alice_twice_state).
  - vm_compute. reflexivity.
  - intros H. apply (f_equal (fun m => m !! "lobby")) in H.
    vm_compute in H. discriminate.
Defined.

(** ** Chat events and console lines in a reachable state *)

(** With nil handles only, the unguarded loop panics at its first member
    and returns at once on an empty list. *)
Lemma fanout_nil_handles s msg l :
  Inv s → (∀ q, q ∈ l → is_Some (heap s !! q)) →
  fanout false msg l s = match l with [] => Ret tt s | _ :: _ => Panic s end.
Proof.
  intros HI Hl. destruct l as [|q l]; [reflexivity|].
  destruct (Hl q) as [u Hu]; [by left|].
  cbn [fanout]; unmonad. rewrite Hu. cbn [andb].
  unfold pushTo; unmonad. by rewrite (inv_conn s HI _ _ Hu).
Qed.

Lemma deliverySet_all h msg l :
  (∀ q, q ∈ l → chosen h msg q = true) → deliverySet h msg l = l.
Proof.
  unfold deliverySet. induction l as [|q l IH]; intros Hl; [done|].
  rewrite filter_cons, decide_True by (apply Hl; by left).
  rewrite IH; [done|]. intros q' Hq'. apply Hl. by right.
Qed.

(** X7. In a reachable state a chat event from a bound session that is in
    a room either panics before anything is pushed or logged, leaving the
    state as it was, or reaches nobody: it panics exactly when its
    delivery set is not empty, which is always the case for a broadcast;
    with an empty delivery set (a dm whose sender and target fields name
    no member) it returns after appending its line to the room's log. *)
Theorem chat_in_reachable_state
    (s : State) (ws : conn) (p : ptr) (u : User) (msg : Message) :
  reachable s → clients s !! ws = Some p → heap s !! p = Some u →
  Room u ≠ "" →
  ∃ members, rooms s !! Room u = Some members ∧ p ∈ members ∧
    handleChat ws msg s =
      match deliverySet (heap s) (withRoom msg (Room u)) members with
      | [] => saveMessageToFile (withRoom msg (Room u)) s
      | _ :: _ => Panic s
      end ∧
    (MsgType msg ≠ "dm" →
     deliverySet (heap s) (withRoom msg (Room u)) members = members).
Proof.
  intros HI%reachable_Inv Hc Hu Hroom.
  destruct (inv_room s HI _ _ Hu Hroom) as (members&Hm&Hin).
  exists members. split; [done|]. split; [done|]. split.
  - rewrite handleChat_eq, Hc, Hu. rewrite bool_decide_eq_false_2 by done.
    rewrite Hm. cbn [from_option id]. rewrite fanout_deliverySet.
    rewrite fanout_nil_handles; [|done|].
    + by destruct (deliverySet _ _ _).
    + intros q [_ Hq]%list_elem_of_filter. by eapply (inv_rooms s HI).
  - intros Hdm. apply deliverySet_all. intros q Hq. unfold chosen.
    destruct (heap s !! q); [|done]. unfold selected. cbn [MsgType withRoom].
    by rewrite (bool_decide_eq_false_2 (MsgType msg = "dm")).
Qed.

Lemma chat_in_reachable_state_witness :
  handleChat 1 (broadcastMsg "a" "hi") room_of_three = Panic room_of_three ∧
  handleChat 1 (dmMsg "a" "nobody" "hi") room_of_three = Panic room_of_three ∧
  handleChat 1 (dmMsg "x" "y" "hi") room_of_three =
    saveMessageToFile (withRoom (dmMsg "x" "y" "hi") "R") room_of_three.
Proof.
  assert (Hs : reachable room_of_three).
  { eapply (run_reachable three_in_room init);
      [apply (reach_boot ∅ ∅)|vm_compute; reflexivity]. }
  assert (H : ∀ msg, ∃ members, rooms room_of_three !! "R" = Some members ∧ _ ∧
     handleChat 1 msg room_of_three = _ ∧ _)
    by (intros msg; apply (chat_in_reachable_state room_of_three 1 0
          (mkUser "a" "x" None "R") msg Hs); vm_compute; congruence).
  split; [|split].
  - destruct (H (broadcastMsg "a" "hi")) as (m&Hm&_&E&_).
    vm_compute in Hm. injection Hm as <-. exact E.
  - destruct (H (dmMsg "a" "nobody" "hi")) as (m&Hm&_&E&_).
    vm_compute in Hm. injection Hm as <-. exact E.
  - destruct (H (dmMsg "x" "y" "hi")) as (m&Hm&_&E&_).
    vm_compute in Hm. injection Hm as <-. exact E.
Defined.

(** X8. Whatever the state, and whether it returns or panics, a chat
    event changes no [User], no identity and no member list, binds no
    connection, and touches no file other than the log of the sender's
    room. *)
Theorem chat_keeps_registries (s : State) (ws : conn) (msg : Message) :
  let s' := final (handleChat ws msg s) in
  heap s' = heap s ∧ users s' = users s ∧ rooms s' = rooms s ∧
  clients s' ⊆ clients s ∧
  ∀ p u path, clients s !! ws = Some p → heap s !! p = Some u →
    path ≠ historyPath (Room u) → files s' !! path = files s !! path.
Proof.
  cbn zeta. rewrite handleChat_eq.
  destruct (clients s !! ws) as [p|] eqn:Hc; [|by repeat split].
  destruct (heap s !! p) as [u|] eqn:Hu; [|by repeat split].
  destruct (bool_decide (Room u = "")); [by repeat split|].
  destruct (fanout_frame true (withRoom msg (Room u))
              (default [] (rooms s !! Room u)) s)
    as (Hh&Hus&Hr&Hf&_&_&_&Hcl&_).
  destruct (fanout _ _ _ _) as [[] s1|s1]; cbn [final] in *.
  - unfold saveMessageToFile; unmonad; cbn [final MsgRoom withRoom].
    case_bool_decide; cbn; (repeat split; [done..|]).
    + intros ???. congruence.
    + intros p' u' path Hp' Hu' Hpath. simplify_eq.
      rewrite lookup_insert_ne by done. congruence.
  - repeat split; try done. intros ???. congruence.
Qed.

(** X9. A console line goes to the room with the empty name. In a
    reachable state where that room is absent or has no member, a
    non-empty line is pushed to nobody and appended as
    [[] server: <line>] to the log of that room; where that room has a
    member, the server process ends (the nil handle of the first member
    panics in [handleMessages]). *)
Theorem console_line (s : State) (text : string) :
  reachable s → text ≠ "" →
  (default [] (rooms s !! "") = [] →
     step s (Console text) = Some (final (saveMessageToFile (consoleMsg text) s)) ∧
     trace (final (saveMessageToFile (consoleMsg text) s)) = trace s ∧
     (historyPath "" ∉ noaccess s →
      logOf (final (saveMessageToFile (consoleMsg text) s)) "" =
        logOf s "" +:+ "[] server: " +:+ text +:+ String LF "")) ∧
  (default [] (rooms s !! "") ≠ [] → step s (Console text) = None).
Proof.
  intros HI%reachable_Inv Htext. cbn [step].
  rewrite bool_decide_eq_false_2 by done.
  fold (consoleMsg text). unfold handleMessages; unmonad. cbn [MsgRoom consoleMsg].
  fold (consoleMsg text).
  rewrite fanout_nil_handles; [|done|].
  - split.
    + intros ->. split; [by destruct (saveMessageToFile_ret (consoleMsg text) s)
                           as (s'&->&_)|].
      split; [by destruct (saveMessageToFile_ret (consoleMsg text) s)
                as (s'&E&_&_&_&_&Ht&_); rewrite E|].
      intros Hna. unfold saveMessageToFile, logOf; unmonad.
      cbn [final MsgRoom consoleMsg].
      rewrite bool_decide_eq_false_2 by done. cbn [files set_files].
      rewrite lookup_insert_eq. cbn [from_option id]. unfold formatRecord, formatLine.
      cbn [MsgRoom Sender Content consoleMsg].
      by rewrite !append_assoc.
    + intros Hne. destruct (default [] (rooms s !! "")); done.
  - intros q Hq. destruct (rooms s !! "") as [l|] eqn:Hl; cbn in Hq.
    + by eapply (inv_rooms s HI).
    + by apply elem_of_nil in Hq.
Qed.

Lemma chat_keeps_registries_witness :
  let s' := final (handleChat 1 (dmMsg "x" "y" "hi") room_of_three) in
  rooms s' = rooms room_of_three ∧
  files s' !! historyPath "lobby" = files room_of_three !! historyPath "lobby" ∧
  files s' !! historyPath "R" = Some ("[R] x: hi" +:+ String LF "").
Proof.
  destruct (chat_keeps_registries room_of_three 1 (dmMsg "x" "y" "hi"))
    as (_&_&Hr&_&Hf).
  split; [exact Hr|]. split; [|vm_compute; reflexivity].
  apply (Hf 0 (mkUser "a" "x" None "R")); vm_compute; congruence.
Defined.

Lemma console_line_witness :
  step init (Console "hello") =
    Some (final (saveMessageToFile (consoleMsg "hello") init)) ∧
  historyLines (final (saveMessageToFile (consoleMsg "hello") init)) "" =
    ["[] server: hello"] ∧
  step alice_in_nameless_state (Console "hello") = None.
Proof.
  split; [|split].
  - apply (console_line init "hello"); [apply (reach_boot ∅ ∅)|done|reflexivity].
  - vm_compute. reflexivity.
  - apply (console_line alice_in_nameless_state "hello").
    + eapply (run_reachable alice_in_nameless init);
        [apply (reach_boot ∅ ∅)|vm_compute; reflexivity].
    + done.
    + vm_compute. discriminate.
Defined.

(** ** Which events panic *)

(** X16. In a reachable state no event other than a chat event panics on
    a bound connection, and sign-up, sign-in, sign-out, create_room and
    events of unknown type panic on no connection at all: the handler
    returns. *)
Theorem handlers_that_return (s : State) (ws : conn) (msg : Message) :
  reachable s →
  MsgType msg ≠ "broadcast" → MsgType msg ≠ "dm" →
  is_Some (clients s !! ws) ∨
    (MsgType msg ≠ "join_room" ∧ MsgType msg ≠ "leave_room") →
  returned (dispatch ws msg s) = true.
Proof.
  intros HI%reachable_Inv Hb Hdm Hor. unfold dispatch.
  rewrite (bool_decide_eq_false_2 _ Hb), (bool_decide_eq_false_2 _ Hdm).
  destruct (bool_decide (MsgType msg = "signup")).
  { by rewrite handleSignup_eq. }
  destruct (bool_decide (MsgType msg = "signin")).
  { rewrite handleSignin_eq.
    destruct (users s !! Sender msg) as [p|] eqn:Hp; [|done].
    destruct (inv_users s HI _ _ Hp) as (u&->&_). by case_bool_decide. }
  destruct (bool_decide (MsgType msg = "signout")); [done|].
  destruct (bool_decide (MsgType msg = "create_room")).
  { by rewrite handleCreateRoom_eq. }
  case_bool_decide as Hj.
  { destruct Hor as [[p Hp]|[? _]]; [|done].
    rewrite handleJoinRoom_eq. destruct (rooms s !! Content msg); [|done].
    rewrite Hp. by destruct (inv_clients s HI _ _ Hp) as [u ->]. }
  case_bool_decide as Hl; [|done].
  destruct Hor as [[p Hp]|[_ ?]]; [|done].
  destruct (inv_clients s HI _ _ Hp) as [u Hu].
  destruct (rooms s !! Room u) as [room|] eqn:Hr.
  - by rewrite (handleLeaveRoom_Inv_eq s ws msg p u room).
  - by rewrite handleLeaveRoom_eq, Hp, Hu, Hr.
Qed.

Lemma handlers_that_return_witness :
  returned (dispatch 2 leaveRoomMsg room_of_three) = true ∧
  returned (dispatch 7 (signinMsg "a" "x") room_of_three) = true.
Proof.
  assert (Hs : reachable room_of_three).
  { eapply (run_reachable three_in_room init);
      [apply (reach_boot ∅ ∅)|vm_compute; reflexivity]. }
  split.
  - apply (handlers_that_return room_of_three 2 leaveRoomMsg Hs); [done|done|].
    left. vm_compute. by eexists.
  - apply (handlers_that_return room_of_three 7 (signinMsg "a" "x") Hs);
      [done|done|]. right. split; done.
Defined.

Lemma dispatch_leave_room ws msg :
  MsgType msg = "leave_room" → dispatch ws msg = handleLeaveRoom ws msg.
Proof. intros Ht. unfold dispatch. by rewrite Ht. Qed.

Lemma dispatch_chat ws msg :
  MsgType msg = "broadcast" ∨ MsgType msg = "dm" →
  dispatch ws msg = handleChat ws msg.
Proof. intros [Ht|Ht]; unfold dispatch; by rewrite Ht. Qed.

(** X17. On a connection without a session, leave_room, broadcast, dm and
    a join_room of an existing room panic on the nil [user] before any
    write: the state is left as it was, no event is sent, and the
    connection is closed by its unwinding reader. *)
Theorem unbound_connection_panics (s : State) (ws : conn) (msg : Message) :
  clients s !! ws = None →
  MsgType msg = "leave_room" ∨ MsgType msg = "broadcast" ∨ MsgType msg = "dm" ∨
    (MsgType msg = "join_room" ∧ is_Some (rooms s !! Content msg)) →
  dispatch ws msg s = Panic s ∧
  (ws ∉ closed s → ws ∉ ended s →
   step s (Recv ws msg) = Some (endConn ws s)).
Proof.
  intros Hc Hcases.
  assert (E : dispatch ws msg s = Panic s).
  { destruct Hcases as [Ht|[Ht|[Ht|[Ht [room Hr]]]]].
    - by rewrite dispatch_leave_room, handleLeaveRoom_eq, Hc.
    - by rewrite dispatch_chat, handleChat_eq, Hc by auto.
    - by rewrite dispatch_chat, handleChat_eq, Hc by auto.
    - by rewrite dispatch_join_room, handleJoinRoom_eq, Hr, Hc. }
  split; [exact E|]. intros Hcl Hen. cbn [step].
  rewrite !bool_decide_eq_false_2 by done. by rewrite E.
Qed.

Lemma unbound_connection_panics_witness :
  dispatch 7 (broadcastMsg "eve" "hi") room_of_three = Panic room_of_three ∧
  dispatch 7 (joinRoomMsg "R") room_of_three = Panic room_of_three ∧
  step room_of_three (Recv 7 leaveRoomMsg) = Some (endConn 7 room_of_three).
Proof.
  split; [|split].
  - apply (unbound_connection_panics room_of_three 7 (broadcastMsg "eve" "hi"));
      [reflexivity|]. right; left. reflexivity.
  - apply (unbound_connection_panics room_of_three 7 (joinRoomMsg "R"));
      [reflexivity|]. right; right; right. split; [reflexivity|].
    vm_compute. by eexists.
  - apply (unbound_connection_panics room_of_three 7 leaveRoomMsg);
      [reflexivity|by left|vm_compute; set_solver|vm_compute; set_solver].
Defined.

(** ** The fan-out over members that carry a handle, at a state *)

Lemma chat_over_populated_room_witness :
  let s := set_down {[2]} populated_room in
  let psst := withRoom (dmMsg "a" "b" "psst") "R" in
  ∃ s', handleChat 1 (dmMsg "a" "b" "psst") s = Ret tt s' ∧
        rooms s' = rooms s ∧
        emitted s s' = [Push 1 psst true; Push 2 psst false] ∧
        clients s' !! 2 = None.
Proof.
  intros s psst.
  destruct (chat_over_populated_room s 1 0 (mkUser "a" "x" (Some 1) "R")
              (dmMsg "a" "b" "psst") [0; 1; 2] [1; 2])
    as (s'&E&Hr&He&Hd); try (vm_compute; congruence).
  { vm_compute. repeat constructor. }
  exists s'. split; [exact E|]. split; [exact Hr|]. split.
  - rewrite He. vm_compute. reflexivity.
  - apply (Hd 2); [|vm_compute; reflexivity].
    apply elem_of_cons. right. by left.
Defined.

(** ** More on the history log *)

Lemma append_inj_r (a b c : string) : a +:+ c = b +:+ c → a = b.
Proof.
  revert b; induction a as [|x a IH]; intros [|y b] H.
  - done.
  - apply (f_equal String.length) in H.
    rewrite append_nil_l, append_cons in H. cbn in H.
    rewrite length_append in H. lia.
  - apply (f_equal String.length) in H.
    rewrite append_nil_l, append_cons in H. cbn in H.
    rewrite length_append in H. lia.
  - rewrite !append_cons in H. injection H as -> H. f_equal. by apply IH.
Qed.

Lemma append_inj_l (a b c : string) : c +:+ a = c +:+ b → a = b.
Proof.
  induction c as [|x c IH]; [done|].
  rewrite !append_cons. intros [= H]. by apply IH.
Qed.

Lemma historyPath_inj a b : historyPath a = historyPath b → a = b.
Proof.
  unfold historyPath. intros H%append_inj_l. by apply append_inj_r in H.
Qed.

(** X11. Every room has a log of its own: appending a record changes the
    log of the record's room by exactly the record's line, or changes
    nothing at all when that log cannot be opened, and never touches the
    log of another room, whatever the two room names are. *)
Theorem room_logs_independent (s : State) (msg : Message) (room : string) :
  room ≠ MsgRoom msg →
  logOf (final (saveMessageToFile msg s)) room = logOf s room ∧
  (historyPath (MsgRoom msg) ∉ noaccess s →
   logOf (final (saveMessageToFile msg s)) (MsgRoom msg) =
     logOf s (MsgRoom msg) +:+ formatRecord msg) ∧
  (historyPath (MsgRoom msg) ∈ noaccess s →
   final (saveMessageToFile msg s) = s).
Proof.
  intros Hne. unfold saveMessageToFile, logOf; unmonad; cbn [final].
  case_bool_decide as Hna.
  - split; [done|]. split; [done|done].
  - cbn [files set_files]. split; [|split; [|done]].
    + rewrite lookup_insert_ne; [done|]. intros E%historyPath_inj. congruence.
    + intros _. by rewrite lookup_insert_eq.
Qed.

Lemma room_logs_independent_witness :
  let s' := final (saveMessageToFile (mkMessage "dm" "x" "y" "hi" "lobby2") restarted) in
  logOf s' "lobby" = lobby_log ∧
  logOf s' "lobby2" = "[lobby2] x: hi" +:+ String LF "".
Proof.
  destruct (room_logs_independent restarted (mkMessage "dm" "x" "y" "hi" "lobby2")
              "lobby") as (H1&H2&_); [done|].
  split; [rewrite H1; vm_compute; reflexivity|].
  cbn [MsgRoom] in H2. rewrite H2; [vm_compute; reflexivity|].
  vm_compute. set_solver.
Defined.

Lemma scanFrom_unlines_app ls rest :
  Forall plainLine ls →
  scanFrom "" (unlines ls +:+ rest) = ls ++ scanFrom "" rest.
Proof.
  induction 1 as [|l ls (HLF&HCR&Hfit) _ IH]; [done|].
  cbn [unlines]. rewrite append_assoc, append_cons.
  rewrite scanFrom_line by done. rewrite append_nil_l, Hfit, HCR, IH. done.
Qed.

(** X12. A line of 65536 bytes or more ends the replay: when a log holds
    plain lines followed by a line that does not fit the scanner's
    buffer, the replay yields the lines before it and nothing of what
    follows, however well-formed the rest of the log is. *)
Theorem overlong_line_cuts_replay
    (s : State) (room : string) (ls : list string) (long rest : string) :
  historyPath room ∉ noaccess s →
  files s !! historyPath room = Some (unlines ls +:+ long +:+ String LF rest) →
  Forall plainLine ls → contains LF long = false → fits long = false →
  historyLines s room = ls.
Proof.
  intros Hna Hf Hls Hlong Hfit.
  rewrite historyLines_logOf by done. unfold logOf, scanLines. rewrite Hf.
  cbn [from_option id]. rewrite scanFrom_unlines_app by done.
  rewrite scanFrom_line by done. rewrite append_nil_l, Hfit. by rewrite app_nil_r.
Qed.

Lemma overlong_line_cuts_replay_witness :
  let log := unlines ["[lobby] bob: hello"] +:+ long_line +:+
             String LF (unlines ["[lobby] bob: bye"]) in
  historyLines (boot {[historyPath "lobby" := log]} ∅) "lobby" =
    ["[lobby] bob: hello"].
Proof.
  intros log.
  apply (overlong_line_cuts_replay _ "lobby" ["[lobby] bob: hello"] long_line
           (unlines ["[lobby] bob: bye"])).
  - apply not_elem_of_empty.
  - apply lookup_singleton_eq.
  - repeat constructor; vm_compute; reflexivity.
  - vm_compute. reflexivity.
  - vm_compute. reflexivity.
Defined.

Lemma scanFrom_unlinesCRLF ls :
  Forall (fun l => plainLine l ∧ fits (l +:+ String CR "") = true) ls →
  scanFrom "" (unlinesCRLF ls) = ls.
Proof.
  induction 1 as [|l ls [(HLF&HCR&_) Hfit] _ IH]; [done|].
  cbn [unlinesCRLF].
  replace (l +:+ String CR (String LF (unlinesCRLF ls)))
    with ((l +:+ String CR "") +:+ String LF (unlinesCRLF ls))
    by (by rewrite append_assoc, append_cons, append_nil_l).
  rewrite scanFrom_line.
  - rewrite append_nil_l, Hfit, dropCR_append, IH. cbn.
    by rewrite append_nil_r.
  - rewrite contains_append, HLF. reflexivity.
Qed.

(** X13. A log whose lines end in carriage return and line feed is
    replayed like the same log with bare line feeds: each history line
    comes without the carriage return. *)
Theorem crlf_log_replays_without_CR
    (s : State) (room : string) (ls : list string) :
  historyPath room ∉ noaccess s →
  files s !! historyPath room = Some (unlinesCRLF ls) →
  Forall (fun l => plainLine l ∧ fits (l +:+ String CR "") = true) ls →
  historyLines s room = ls.
Proof.
  intros Hna Hf Hls. rewrite historyLines_logOf by done.
  unfold logOf, scanLines. rewrite Hf. by apply scanFrom_unlinesCRLF.
Qed.

Lemma crlf_log_replays_without_CR_witness :
  historyLines
    (boot {[historyPath "lobby" := unlinesCRLF ["[lobby] bob: hello"; ""; "x"]]} ∅)
    "lobby" = ["[lobby] bob: hello"; ""; "x"].
Proof.
  apply crlf_log_replays_without_CR.
  - apply not_elem_of_empty.
  - apply lookup_singleton_eq.
  - repeat constructor; vm_compute; reflexivity.
Defined.

(** ** Replies *)

Lemma emitted_app s s' out : trace s' = trace s ++ out → emitted s s' = out.
Proof. intros E. unfold emitted. by rewrite E, drop_app_length. Qed.

Lemma replies_say s ws t c :
  t = "info" ∨ t = "error" →
  Forall (reply_to ws) (emitted s (say ws (reply t c) s)).
Proof.
  intros Ht. rewrite (emitted_app _ _ [Push ws (reply t c) (alive s ws)]) by done.
  constructor; [|done]. split; [done|]. cbn. tauto.
Qed.

(** X20. Every answer goes to the connection that asked, and to no other:
    whatever the state, the writes made for a sign-up, sign-in, sign-out,
    create_room, join_room, leave_room or unknown event, and for a chat
    event of a session that is in no room, are info, error or history
    events on the originating connection only. *)
Theorem replies_go_to_sender (s : State) (ws : conn) (msg : Message) :
  MsgType msg ≠ "broadcast" ∧ MsgType msg ≠ "dm" ∨
    (∃ p u, clients s !! ws = Some p ∧ heap s !! p = Some u ∧ Room u = "") →
  Forall (reply_to ws) (emitted s (final (dispatch ws msg s))).
Proof.
  assert (Hnil : Forall (reply_to ws) (emitted s s)).
  { rewrite (emitted_app s s []); [done|by rewrite app_nil_r]. }
  intros Hor. unfold dispatch.
  destruct (bool_decide (MsgType msg = "signup")).
  { rewrite handleSignup_eq; cbn [final]. case_match.
    - apply replies_say; auto.
    - rewrite (emitted_app _ _ [Push ws (reply "info" "Signup successful") (alive s ws)])
        by done.
      constructor; [|done]. split; [done|]. cbn. tauto. }
  destruct (bool_decide (MsgType msg = "signin")).
  { rewrite handleSignin_eq. repeat case_match; cbn [final]; try done;
      try (apply replies_say; auto).
    rewrite (emitted_app _ _ [Push ws (reply "info" "Signin successful") (alive s ws)])
      by done.
    constructor; [|done]. split; [done|]. cbn. tauto. }
  destruct (bool_decide (MsgType msg = "signout")).
  { rewrite handleSignout_eq; cbn [final].
    rewrite (emitted_app _ _ [Push ws (reply "info" "Signout successful") (alive s ws)])
      by done.
    constructor; [|done]. split; [done|]. cbn. tauto. }
  destruct (bool_decide (MsgType msg = "create_room")).
  { rewrite handleCreateRoom_eq; cbn [final]. case_match.
    - apply replies_say; auto.
    - rewrite (emitted_app _ _
                 [Push ws (reply "info" "Room created successfully") (alive s ws)])
        by done.
      constructor; [|done]. split; [done|]. cbn. tauto. }
  destruct (bool_decide (MsgType msg = "join_room")).
  { rewrite handleJoinRoom_eq.
    destruct (rooms s !! Content msg) as [room|]; [|apply replies_say; auto].
    destruct (clients s !! ws) as [p|]; [|done].
    destruct (heap s !! p) as [u|]; [|done]. cbn [final].
    rewrite (emitted_app _ _
      (map (fun l => Push ws (reply "history" l) (alive s ws))
           (historyLines s (Content msg))
       ++ [Push ws (reply "info" "Joined room successfully") (alive s ws)]))
      by (cbn; by rewrite <- app_assoc).
    apply Forall_app. split.
    - apply Forall_fmap, Forall_forall. intros l _. split; [done|]. cbn. tauto.
    - constructor; [|done]. split; [done|]. cbn. tauto. }
  destruct (bool_decide (MsgType msg = "leave_room")).
  { rewrite handleLeaveRoom_eq.
    destruct (clients s !! ws) as [p|]; [|done].
    destruct (heap s !! p) as [u|]; [|done].
    destruct (rooms s !! Room u) as [room|]; [|apply replies_say; auto].
    destruct (leaveLoop_cases (Room u) (Username u) room 0 room s)
      as [HL|[HL|(j&q&u'&_&_&_&HL)]]; rewrite HL; cbn [final]; [|done|].
    - rewrite (emitted_app _ _
                 [Push ws (reply "info" "Left room successfully") (alive s ws)])
        by done.
      constructor; [|done]. split; [done|]. cbn. tauto.
    - rewrite (emitted_app _ _
                 [Push ws (reply "info" "Left room successfully") (alive s ws)])
        by done.
      constructor; [|done]. split; [done|]. cbn. tauto. }
  destruct (bool_decide (MsgType msg = "broadcast") || bool_decide (MsgType msg = "dm"))
    eqn:Hchat; [|done].
  destruct Hor as [[Hb Hd]|(p&u&Hp&Hu&Hr)].
  { rewrite (bool_decide_eq_false_2 _ Hb), (bool_decide_eq_false_2 _ Hd) in Hchat.
    discriminate. }
  rewrite handleChat_eq, Hp, Hu. rewrite bool_decide_eq_true_2 by done.
  apply replies_say; auto.
Qed.

Lemma replies_go_to_sender_witness :
  Forall (reply_to 1) (emitted restarted (final (dispatch 1 (joinRoomMsg "lobby") restarted))) ∧
  Forall (reply_to 1)
    (emitted alice_online_state
       (final (dispatch 1 (broadcastMsg "alice" "hi") alice_online_state))).
Proof.
  split.
  - apply replies_go_to_sender. left. split; discriminate.
  - apply replies_go_to_sender. right.
    exists 0, (mkUser "alice" "pw1" None ""). repeat split; vm_compute; reflexivity.
Defined.

(** ** Replay on join: logs of plain lines (C5) *)





(** ** The delivery set of a dm (C10) *)



